(** * pyrobolearn: the Bullet simulator adapter

    A shallow embedding of [pyrobolearn/simulators/bullet.py], the class
    [Bullet] that wraps the PyBullet client, and the properties of the
    adapter contract: which keyword arguments are forwarded, how many
    engine calls an operation issues, the single/batch convention of the
    accessors, the unit and matrix conventions and the local errors.

    The engine (the [BulletClient] held in [self.sim]) is external: it is a
    parameter of the development.  Every call the adapter makes on it is
    recorded with its positional and keyword arguments, so that statements
    about "what is forwarded" are statements about that record. *)

From Stdlib Require Import QArith.
From stdpp Require Import gmap strings list pretty.

#[local] Set Warnings "-clear-no-such-hyp".

Local Open Scope string_scope.
Local Open Scope list_scope.
Local Open Scope Z_scope.

(** ** Python values crossing the adapter boundary *)

Section Values.

(** The type of Python floats.  The adapter never computes on floats
    except through [np.rad2deg] and [np.deg2rad]; the type is left
    abstract. *)
Context {float : Type}.

(** The objects that callers pass and that are forwarded to the engine:
    [None], booleans, ints, floats, strings, lists (and tuples), numpy
    arrays (shape and row-major data) and [np.quaternion] objects
    (scalar first: w, x, y, z). *)
#[warnings="-register-all"]
Inductive value : Type :=
| VNone
| VBool (b : bool)
| VInt (n : Z)
| VFloat (x : float)
| VStr (s : string)
| VList (l : list value)
| VArray (shape : list nat) (data : list float)
| VQuat (w x y z : float).

(** [x is not None] *)
Definition is_not_None (v : value) : bool :=
  match v with VNone => false | _ => true end.

(** [x is None] *)
Definition is_None (v : value) : bool :=
  match v with VNone => true | _ => false end.

(** [isinstance(x, int)]: in Python [bool] is a subclass of [int]. *)
Definition isinstance_int (v : value) : bool :=
  match v with VInt _ | VBool _ => true | _ => false end.

(** [isinstance(x, str)] *)
Definition isinstance_str (v : value) : bool :=
  match v with VStr _ => true | _ => false end.

(** [int(flag)] for a boolean flag. *)
Definition int_of_bool (b : bool) : value := VInt (Z.b2z b).

(** A numpy array: its shape and its elements in row-major order. *)
Record ndarray : Type := NdArray { shape : list nat; data : list float }.

(** [np.array(l)] for a flat sequence of floats. *)
Definition np_array (l : list float) : ndarray :=
  {| shape := [length l]; data := l |}.

(** [a.ravel().tolist()] *)
Definition ravel_tolist (a : ndarray) : value := VList (VFloat <$> data a).

(** An array handed to the engine as an argument. *)
Definition array_value (a : ndarray) : value := VArray (shape a) (data a).

(** Three- and four-component tuples returned by the engine. *)
Definition vec3 : Type := float * float * float.
Definition quat : Type := float * float * float * float.

Definition vec3_list (v : vec3) : list float :=
  let '(x, y, z) := v in [x; y; z].
Definition quat_list (q : quat) : list float :=
  let '(x, y, z, w) := q in [x; y; z; w].

(** All multi-indices of an array of the given shape, in row-major
    order. *)
Fixpoint indices (dims : list nat) : list (list nat) :=
  match dims with
  | [] => [[]]
  | d :: rest => i ← seq 0 d; (λ idx, i :: idx) <$> indices rest
  end.

(** The row-major offset of a multi-index. *)
Fixpoint offset (dims idx : list nat) : nat :=
  match dims, idx with
  | _ :: rest, i :: idx' => (i * foldr Nat.mul 1 rest + offset rest idx')%nat
  | _, _ => 0%nat
  end.

(** [a.T]: the axes are reversed. *)
Definition nd_T (a : ndarray) : ndarray :=
  let dims := rev (shape a) in
  {| shape := dims;
     data := omap (λ idx, data a !! offset (shape a) (rev idx)) (indices dims) |}.

(** [a.reshape(dims)]: the number of elements must fit ([None] stands for
    numpy's [ValueError]). *)
Definition nd_reshape (a : ndarray) (dims : list nat) : option ndarray :=
  if bool_decide (foldr Nat.mul 1%nat dims = length (data a))
  then Some {| shape := dims; data := data a |}
  else None.

(** [np.array(rows)] for a Python list of arrays: the rows are stacked
    along a new first axis; rows of different shapes do not make a numeric
    array ([None]). *)
Definition np_stack (rows : list ndarray) : option ndarray :=
  match rows with
  | [] => Some {| shape := [0%nat]; data := [] |}
  | r :: _ =>
      if forallb (λ x, bool_decide (shape x = shape r)) rows
      then Some {| shape := length rows :: shape r;
                   data := concat (data <$> rows) |}
      else None
  end.

(** A numeric argument or result: a Python float, a Python list of floats
    or a numpy array. *)
Inductive num : Type :=
| NFloat (x : float)
| NList (l : list float)
| NArray (a : ndarray).

(** The value handed to the engine for a numeric argument. *)
Definition num_value (n : num) : value :=
  match n with
  | NFloat x => VFloat x
  | NList l => VList (VFloat <$> l)
  | NArray a => array_value a
  end.

(** [len(x)]; [None] stands for [TypeError] (a float or a 0-d array has no
    length). *)
Definition py_len (n : num) : option nat :=
  match n with
  | NFloat _ => None
  | NList l => Some (length l)
  | NArray a => head (shape a)
  end.

(** [if isinstance(x, np.ndarray): x = x.ravel().tolist()] *)
Definition tolist_if_ndarray (n : num) : num :=
  match n with
  | NArray a => NList (data a)
  | _ => n
  end.



(** The identifier argument of the batch accessors: a single int or a list
    of ints. *)
Inductive ids : Type :=
| One (i : Z)
| Many (l : list Z).

Definition ids_value (j : ids) : value :=
  match j with
  | One i => VInt i
  | Many l => VList (VInt <$> l)
  end.

End Values.

Arguments value : clear implicits.
Arguments ndarray : clear implicits.
Arguments vec3 : clear implicits.
Arguments quat : clear implicits.
Arguments num : clear implicits.

(** ** The engine client

    The methods of the PyBullet client that the adapter calls, under their
    PyBullet names. *)

Inductive method : Type :=
| resetSimulation | setTimeStep | setRealTimeSimulation
| getPhysicsEngineParameters | setPhysicsEngineParameter
| startStateLogging | stopStateLogging | restoreState
| loadURDF | createMultiBody | removeBody | getNumBodies
| changeConstraint | removeConstraint
| getBasePositionAndOrientation | resetBasePositionAndOrientation
| getBaseVelocity | resetBaseVelocity
| getNumJoints | getJointInfo | getJointState | getJointStates
| setJointMotorControl2 | setJointMotorControlArray | getLinkState
| createVisualShape | changeVisualShape
| computeViewMatrix | computeViewMatrixFromYawPitchRoll
| computeProjectionMatrix | computeProjectionMatrixFOV
| createCollisionShape | changeDynamics | calculateInverseDynamics
| getDebugVisualizerCamera | resetDebugVisualizerCamera.

#[global] Instance method_eq_dec : EqDecision method.
Proof. solve_decision. Defined.

(** Engine constants, with the values given in the docstrings of
    [create_visual_shape], [get_joint_info] and [set_joint_motor_control]. *)
Definition GEOM_SPHERE : Z := 2.
Definition GEOM_BOX : Z := 3.
Definition GEOM_CYLINDER : Z := 4.
Definition GEOM_MESH : Z := 5.
Definition GEOM_PLANE : Z := 6.
Definition GEOM_CAPSULE : Z := 7.
Definition JOINT_FIXED : Z := 4.
Definition VELOCITY_CONTROL : Z := 0.
Definition TORQUE_CONTROL : Z := 1.
Definition POSITION_CONTROL : Z := 2.

(** Errors.  A local error is raised by the adapter's own code (or by the
    Python and numpy operations it applies); an engine error is raised
    inside an engine call and is never caught by the adapter. *)
Inductive local_error : Type :=
| ValueError (msg : string)
| TypeError (msg : string)
| IndexError (msg : string).

Inductive exn : Type :=
| Local (e : local_error)
| EngineError (msg : string).

Inductive result (A : Type) : Type :=
| Ok (a : A)
| Raise (e : exn).
Arguments Ok {A} a.
Arguments Raise {A} e.

Section Engine.

Context {float : Type}.
Local Abbreviation val := (value float).

(** The tuples the engine returns, field by field, in the order of the
    docstrings of [get_joint_info], [get_joint_state], [get_link_state]
    and [get_debug_visualizer]. *)
Record JointInfo : Type := {
  jointIndex : Z;
  jointName : string;
  jointType : Z;
  qIndex : Z;
  uIndex : Z;
  jointFlags : Z;
  jointDamping : float;
  jointFriction : float;
  jointLowerLimit : float;
  jointUpperLimit : float;
  jointMaxForce : float;
  jointMaxVelocity : float;
  linkName : string;
  jointAxis : vec3 float;
  parentFramePos : vec3 float;
  parentFrameOrn : quat float;
  parentIndex : Z
}.

Record JointState : Type := {
  jointPosition : float;
  jointVelocity : float;
  jointReactionForces : list float;
  appliedJointMotorTorque : float
}.

(** Entries 6 and 7 are present only when the link velocity was asked
    for. *)
Record LinkState : Type := {
  linkWorldPosition : vec3 float;
  linkWorldOrientation : quat float;
  localInertialFramePosition : vec3 float;
  localInertialFrameOrientation : quat float;
  worldLinkFramePosition : vec3 float;
  worldLinkFrameOrientation : quat float;
  worldLinkLinearVelocity : option (vec3 float);
  worldLinkAngularVelocity : option (vec3 float)
}.

Record CameraInfo : Type := {
  cam_width : Z;
  cam_height : Z;
  cam_viewMatrix : list float;
  cam_projectionMatrix : list float;
  cam_cameraUp : vec3 float;
  cam_cameraForward : vec3 float;
  cam_horizontal : vec3 float;
  cam_vertical : vec3 float;
  cam_yaw : float;
  cam_pitch : float;
  cam_dist : float;
  cam_target : vec3 float
}.

(** What each engine method returns ([unit] for [None]). *)
Definition returns (m : method) : Type :=
  match m with
  | getPhysicsEngineParameters => gmap string val
  | startStateLogging | loadURDF | createMultiBody | getNumBodies
  | getNumJoints | createVisualShape | createCollisionShape => Z
  | getBasePositionAndOrientation => vec3 float * quat float
  | getBaseVelocity => vec3 float * vec3 float
  | getJointInfo => JointInfo
  | getJointState => JointState
  | getJointStates => list JointState
  | getLinkState => LinkState
  | computeViewMatrix | computeViewMatrixFromYawPitchRoll
  | computeProjectionMatrix | computeProjectionMatrixFOV
  | calculateInverseDynamics => list float
  | getDebugVisualizerCamera => CameraInfo
  | _ => unit
  end.

(** One call on the engine client: the method, the positional arguments
    and the keyword arguments. *)
Record Call : Type := MkCall {
  meth : method;
  args : list val;
  kwargs : gmap string val
}.

Context {estate : Type}.

(** An engine: for each method, its answer (a value or an engine error)
    and the engine's next state. *)
Definition Engine : Type :=
  ∀ m : method, list val → gmap string val → estate →
                (string + returns m) * estate.

(** The world an adapter operation runs in: the engine's state and the
    calls issued so far, oldest first. *)
Record World : Type := MkWorld { est : estate; trace : list Call }.

(** Adapter operations: they read and change the world and either return
    or raise. *)
Definition M (A : Type) : Type := World → result A * World.

Definition ret {A} (a : A) : M A := λ w, (Ok a, w).

Definition bind {A B} (m : M A) (f : A → M B) : M B :=
  λ w, match m w with
       | (Ok a, w') => f a w'
       | (Raise e, w') => (Raise e, w')
       end.

Definition raise {A} (e : local_error) : M A := λ w, (Raise (Local e), w).

Variable eng : Engine.

(** [self.sim.m(a, k)]: the call is issued and recorded; an engine
    error propagates. *)
Definition sim (m : method) (a : list val) (k : gmap string val)
  : M (returns m) :=
  λ w, let '(r, s') := eng m a k (est w) in
       let w' := {| est := s'; trace := trace w ++ [MkCall m a k] |} in
       match r with
       | inl msg => (Raise (EngineError msg), w')
       | inr x => (Ok x, w')
       end.

End Engine.

Arguments JointInfo : clear implicits.
Arguments JointState : clear implicits.
Arguments LinkState : clear implicits.
Arguments CameraInfo : clear implicits.
Arguments Call : clear implicits.
Arguments Engine : clear implicits.
Arguments World : clear implicits.
Arguments M : clear implicits.
Arguments returns : clear implicits.

#[global] Typeclasses Opaque M.

#[global] Instance M_ret {float estate} : MRet (M float estate) :=
  λ A, ret.

#[global] Instance M_bind {float estate} : MBind (M float estate) :=
  λ A B f m, bind m f.

(** ** The adapter: class [Bullet] *)

Section Bullet.

Context {float estate : Type}.

(** [np.rad2deg] and [np.deg2rad] *)
Variables np_rad2deg np_deg2rad : float → float.

(** [self.sim] *)
Variable eng : Engine float estate.

Local Abbreviation val := (value float).
Local Abbreviation call := (sim eng).

(** A Python or numpy operation that fails raises its error locally. *)
Definition lift {A} (o : option A) (e : local_error) : M float estate A :=
  match o with
  | Some a => ret a
  | None => raise e
  end.

(** [for x in l: acc = body(acc, x)] *)
Fixpoint for_each {A B} (l : list A) (acc : B)
    (body : B → A → M float estate B) : M float estate B :=
  match l with
  | [] => ret acc
  | x :: l' => acc' ← body acc x; for_each l' acc' body
  end.

(** [if v is not None: kwargs[name] = v] *)
Definition set_if_not_None (name : string) (v : val)
    (kwargs : gmap string val) : gmap string val :=
  if is_not_None v then <[name := v]> kwargs else kwargs.

(** [if b is not None: kwargs[name] = int(b)], for a boolean option. *)
Definition set_int_if_not_None (name : string) (b : option bool)
    (kwargs : gmap string val) : gmap string val :=
  match b with
  | Some b => <[name := int_of_bool b]> kwargs
  | None => kwargs
  end.

(** *** Simulator *)

Definition reset : M float estate unit :=
  call resetSimulation [] ∅ ;; ret tt.

Definition set_time_step (time_step : val) : M float estate unit :=
  call setTimeStep [] {[ "timeStep" := time_step ]} ;; ret tt.

Definition set_real_time (flag : bool) : M float estate unit :=
  call setRealTimeSimulation []
       {[ "enableRealTimeSimulation" := int_of_bool flag ]} ;;
  ret tt.

Definition pause : M float estate unit := set_real_time false.

Definition unpause : M float estate unit := set_real_time true.

Definition get_physics_properties : M float estate (gmap string val) :=
  call getPhysicsEngineParameters [] ∅.

Definition set_physics_properties
    (time_step num_solver_iterations use_split_impulse
     split_impulse_penetration_threshold num_sub_steps collision_filter_mode
     contact_breaking_threshold max_num_cmd_per_1ms enable_file_caching
     restitution_velocity_threshold erp contact_erp friction_erp : val)
    (enable_cone_friction deterministic_overlapping_pairs : option bool)
    (solver_residual_threshold : val) : M float estate unit :=
  let kwargs := ∅ in
  let kwargs := set_if_not_None "fixedTimeStep" time_step kwargs in
  let kwargs := set_if_not_None "numSolverIterations" num_solver_iterations kwargs in
  let kwargs := set_if_not_None "useSplitImpulse" use_split_impulse kwargs in
  let kwargs := set_if_not_None "splitImpulsePenetrationThreshold"
                                split_impulse_penetration_threshold kwargs in
  let kwargs := set_if_not_None "numSubSteps" num_sub_steps kwargs in
  let kwargs := set_if_not_None "collisionFilterMode" collision_filter_mode kwargs in
  let kwargs := set_if_not_None "contactBreakingThreshold"
                                contact_breaking_threshold kwargs in
  let kwargs := set_if_not_None "maxNumCmdPer1ms" max_num_cmd_per_1ms kwargs in
  let kwargs := set_if_not_None "enableFileCaching" enable_file_caching kwargs in
  let kwargs := set_if_not_None "restitutionVelocityThreshold"
                                restitution_velocity_threshold kwargs in
  let kwargs := set_if_not_None "erp" erp kwargs in
  let kwargs := set_if_not_None "contactERP" contact_erp kwargs in
  let kwargs := set_if_not_None "frictionERP" friction_erp kwargs in
  let kwargs := set_int_if_not_None "enableConeFriction" enable_cone_friction kwargs in
  let kwargs := set_int_if_not_None "deterministicOverlappingPairs"
                                    deterministic_overlapping_pairs kwargs in
  let kwargs := set_if_not_None "solverResidualThreshold"
                                solver_residual_threshold kwargs in
  call setPhysicsEngineParameter [] kwargs ;; ret tt.

(** The function has no [return] statement: whatever the engine answers,
    the Python-level result is [None]. *)
Definition start_logging
    (logging_type filename object_unique_ids max_log_dof body_unique_id_A
     body_unique_id_B link_index_A link_index_B device_type_filter
     log_flags : val) : M float estate val :=
  let kwargs := ∅ in
  let kwargs := set_if_not_None "objectUniqueIds" object_unique_ids kwargs in
  let kwargs := set_if_not_None "maxLogDof" max_log_dof kwargs in
  let kwargs := set_if_not_None "bodyUniqueIdA" body_unique_id_A kwargs in
  let kwargs := set_if_not_None "bodyUniqueIdB" body_unique_id_B kwargs in
  let kwargs := set_if_not_None "linkIndexA" link_index_A kwargs in
  let kwargs := set_if_not_None "linkIndexB" link_index_B kwargs in
  let kwargs := set_if_not_None "deviceTypeFilter" device_type_filter kwargs in
  let kwargs := set_if_not_None "logFlags" log_flags kwargs in
  call startStateLogging [logging_type; filename] kwargs ;; ret VNone.

Definition stop_logging (logger_id : val) : M float estate unit :=
  call stopStateLogging [logger_id] ∅ ;; ret tt.

Definition load (state : val) : M float estate unit :=
  if isinstance_int state then
    call restoreState [] {[ "stateId" := state ]} ;; ret tt
  else if isinstance_str state then
    call restoreState [] {[ "fileName" := state ]} ;; ret tt
  else ret tt.

(** *** Loading and bodies *)

(** Modelled from the spec: [QuaternionListConverter] (module
    [pyrobolearn.utils.converter], constructed in [__init__] with
    [convention=1]) is not among the sources.  Following the spec, the
    conversion used before forwarding reorders a scalar-first orientation
    (w, x, y, z) into the scalar-last order (x, y, z, w) that the engine
    expects. *)
Definition quat_conv_convertFrom (w x y z : float) : list float :=
  [x; y; z; w].

(** Modelled from the spec: the reverse conversion of the same converter,
    from the engine's scalar-last list (x, y, z, w) back to the
    scalar-first components (w, x, y, z); a list that has not four
    components is no orientation. *)
Definition quat_conv_convertTo (l : list float)
  : option (float * float * float * float) :=
  match l with
  | [x; y; z; w] => Some (w, x, y, z)
  | _ => None
  end.

(** The normalisation applied to [position] in [load_urdf] and
    [create_body]: [if isinstance(position, np.ndarray): position =
    position.ravel().tolist()]. *)
Definition position_arg (position : val) : val :=
  match position with
  | VArray sh d => ravel_tolist (NdArray sh d)
  | _ => position
  end.

(** The normalisation applied to [orientation]: an array is flattened to a
    list, an [np.quaternion] goes through [quat_conv.convertFrom], anything
    else is forwarded as it is. *)
Definition orientation_arg (orientation : val) : val :=
  match orientation with
  | VArray sh d => ravel_tolist (NdArray sh d)
  | VQuat w x y z => VList (VFloat <$> quat_conv_convertFrom w x y z)
  | _ => orientation
  end.

Definition load_urdf (filename position orientation use_maximal_coordinates : val)
    (use_fixed_base : bool) (flags scale : val) : M float estate Z :=
  let position :=
    if is_not_None position then position_arg position else position in
  let orientation :=
    if is_not_None orientation then orientation_arg orientation
    else orientation in
  call loadURDF [filename; position; orientation; use_maximal_coordinates;
                 int_of_bool use_fixed_base; flags; scale] ∅.

Definition create_body (visual_shape_id collision_shape_id mass position
                        orientation : val) : M float estate Z :=
  let position := position_arg position in
  let orientation := orientation_arg orientation in
  call createMultiBody []
       (<["baseMass" := mass]>
        (<["baseCollisionShapeIndex" := collision_shape_id]>
         (<["baseVisualShapeIndex" := visual_shape_id]>
          (<["basePosition" := position]>
           {[ "baseOrientation" := orientation ]})))).

Definition remove_body (body_id : Z) : M float estate unit :=
  call removeBody [VInt body_id] ∅ ;; ret tt.

Definition num_bodies : M float estate Z :=
  call getNumBodies [] ∅.

(** *** Constraints *)

Definition remove_constraint (constraint_id : val) : M float estate unit :=
  call removeConstraint [constraint_id] ∅ ;; ret tt.

Definition change_constraint
    (constraint_id child_joint_pivot child_frame_orientation max_force
     gear_ratio gear_auxiliary_link relative_position_target erp : val)
  : M float estate unit :=
  let kwargs := ∅ in
  let kwargs := set_if_not_None "jointChildPivot" child_joint_pivot kwargs in
  let kwargs := set_if_not_None "jointChildFrameOrientation"
                                child_frame_orientation kwargs in
  let kwargs := set_if_not_None "maxForce" max_force kwargs in
  let kwargs := set_if_not_None "gearRatio" gear_ratio kwargs in
  let kwargs := set_if_not_None "gearAuxLink" gear_auxiliary_link kwargs in
  let kwargs := set_if_not_None "relativePositionTarget"
                                relative_position_target kwargs in
  let kwargs := set_if_not_None "erp" erp kwargs in
  call changeConstraint [constraint_id] kwargs ;; ret tt.

(** *** Base of a body *)

Definition get_base_pose (body_id : Z)
  : M float estate (ndarray float * ndarray float) :=
  '(pos, orientation) ← call getBasePositionAndOrientation [VInt body_id] ∅;
  ret (np_array (vec3_list pos), np_array (quat_list orientation)).

Definition get_base_position (body_id : Z) : M float estate (ndarray float) :=
  pose ← get_base_pose body_id; ret (pose.1).

Definition get_base_orientation (body_id : Z) : M float estate (ndarray float) :=
  pose ← get_base_pose body_id; ret (pose.2).

Definition reset_base_pose (body_id : Z) (position orientation : val)
  : M float estate unit :=
  call resetBasePositionAndOrientation [VInt body_id; position; orientation] ∅ ;;
  ret tt.

Definition reset_base_position (body_id : Z) (position : val)
  : M float estate unit :=
  orientation ← get_base_orientation body_id;
  reset_base_pose body_id position (array_value orientation).

Definition reset_base_orientation (body_id : Z) (orientation : val)
  : M float estate unit :=
  position ← get_base_position body_id;
  reset_base_pose body_id (array_value position) orientation.

Definition get_base_velocity (body_id : Z)
  : M float estate (ndarray float * ndarray float) :=
  '(lin_vel, ang_vel) ← call getBaseVelocity [VInt body_id] ∅;
  ret (np_array (vec3_list lin_vel), np_array (vec3_list ang_vel)).

Definition get_base_linear_velocity (body_id : Z)
  : M float estate (ndarray float) :=
  vel ← get_base_velocity body_id; ret (vel.1).

Definition get_base_angular_velocity (body_id : Z)
  : M float estate (ndarray float) :=
  vel ← get_base_velocity body_id; ret (vel.2).

Definition reset_base_velocity (body_id : Z)
    (linear_velocity angular_velocity : val) : M float estate unit :=
  if is_not_None linear_velocity && is_not_None angular_velocity then
    call resetBaseVelocity [VInt body_id]
         (<["linearVelocity" := linear_velocity]>
          {[ "angularVelocity" := angular_velocity ]}) ;;
    ret tt
  else if is_not_None linear_velocity then
    call resetBaseVelocity [VInt body_id]
         {[ "linearVelocity" := linear_velocity ]} ;;
    ret tt
  else if is_not_None angular_velocity then
    call resetBaseVelocity [VInt body_id]
         {[ "angularVelocity" := angular_velocity ]} ;;
    ret tt
  else ret tt.

(** *** Joints and links *)

Definition num_joints (body_id : Z) : M float estate Z :=
  call getNumJoints [VInt body_id] ∅.

Definition num_links (body_id : Z) : M float estate Z :=
  num_joints body_id.

Definition get_joint_info (body_id joint_id : Z)
  : M float estate (JointInfo float) :=
  call getJointInfo [VInt body_id; VInt joint_id] ∅.

(** [np.array(rows)] on the list built by a loop. *)
Definition np_array_rows (rows : list (ndarray float))
  : M float estate (ndarray float) :=
  lift (np_stack rows)
       (ValueError "setting an array element with a sequence").

(** [state[6]] and [state[7]] exist only on the longer tuple. *)
Definition link_velocity_entry (entry : option (vec3 float))
  : M float estate (vec3 float) :=
  lift entry (IndexError "tuple index out of range").

Definition get_link_world_positions (body_id : Z) (link_ids : ids)
  : M float estate (ndarray float) :=
  match link_ids with
  | One link_id =>
      if bool_decide (link_id = -1) then get_base_position body_id
      else
        state ← call getLinkState [VInt body_id; VInt link_id] ∅;
        ret (np_array (vec3_list (linkWorldPosition state)))
  | Many link_ids =>
      positions ← for_each link_ids []
        (λ positions link_id,
           if bool_decide (link_id = -1) then
             p ← get_base_position body_id; ret (positions ++ [p])
           else
             state ← call getLinkState [VInt body_id; VInt link_id] ∅;
             ret (positions ++ [np_array (vec3_list (linkWorldPosition state))]));
      np_array_rows positions
  end.

Definition get_link_world_orientations (body_id : Z) (link_ids : ids)
  : M float estate (ndarray float) :=
  match link_ids with
  | One link_id =>
      if bool_decide (link_id = -1) then get_base_orientation body_id
      else
        state ← call getLinkState [VInt body_id; VInt link_id] ∅;
        ret (np_array (quat_list (linkWorldOrientation state)))
  | Many link_ids =>
      orientations ← for_each link_ids []
        (λ orientations link_id,
           if bool_decide (link_id = -1) then
             o ← get_base_orientation body_id; ret (orientations ++ [o])
           else
             state ← call getLinkState [VInt body_id; VInt link_id] ∅;
             ret (orientations
                    ++ [np_array (quat_list (linkWorldOrientation state))]));
      np_array_rows orientations
  end.

Definition get_link_world_linear_velocities (body_id : Z) (link_ids : ids)
  : M float estate (ndarray float) :=
  match link_ids with
  | One link_id =>
      if bool_decide (link_id = -1) then get_base_linear_velocity body_id
      else
        state ← call getLinkState [VInt body_id; VInt link_id]
                     {[ "computeLinkVelocity" := VInt 1 ]};
        v ← link_velocity_entry (worldLinkLinearVelocity state);
        ret (np_array (vec3_list v))
  | Many link_ids =>
      velocities ← for_each link_ids []
        (λ velocities link_id,
           if bool_decide (link_id = -1) then
             v ← get_base_linear_velocity body_id; ret (velocities ++ [v])
           else
             state ← call getLinkState [VInt body_id; VInt link_id]
                          {[ "computeLinkVelocity" := VInt 1 ]};
             v ← link_velocity_entry (worldLinkLinearVelocity state);
             ret (velocities ++ [np_array (vec3_list v)]));
      np_array_rows velocities
  end.

(** For the base, this accessor too reads the linear velocity, as the
    source does. *)
Definition get_link_world_angular_velocities (body_id : Z) (link_ids : ids)
  : M float estate (ndarray float) :=
  match link_ids with
  | One link_id =>
      if bool_decide (link_id = -1) then get_base_linear_velocity body_id
      else
        state ← call getLinkState [VInt body_id; VInt link_id]
                     {[ "computeLinkVelocity" := VInt 1 ]};
        v ← link_velocity_entry (worldLinkAngularVelocity state);
        ret (np_array (vec3_list v))
  | Many link_ids =>
      velocities ← for_each link_ids []
        (λ velocities link_id,
           if bool_decide (link_id = -1) then
             v ← get_base_linear_velocity body_id; ret (velocities ++ [v])
           else
             state ← call getLinkState [VInt body_id; VInt link_id]
                          {[ "computeLinkVelocity" := VInt 1 ]};
             v ← link_velocity_entry (worldLinkAngularVelocity state);
             ret (velocities ++ [np_array (vec3_list v)]));
      np_array_rows velocities
  end.

(** [lin_vel, ang_vel = state[6:8]]: the slice has two entries only on the
    longer tuple. *)
Definition link_velocity_pair (state : LinkState float)
  : M float estate (vec3 float * vec3 float) :=
  match worldLinkLinearVelocity state, worldLinkAngularVelocity state with
  | Some lin_vel, Some ang_vel => ret (lin_vel, ang_vel)
  | _, _ => raise (ValueError "need more than 0 values to unpack")
  end.

Definition get_link_world_velocities (body_id : Z) (link_ids : ids)
  : M float estate (ndarray float) :=
  match link_ids with
  | One link_id =>
      if bool_decide (link_id = -1) then
        '(lin_vel, ang_vel) ← get_base_velocity body_id;
        ret (np_array (data lin_vel ++ data ang_vel))
      else
        state ← call getLinkState [VInt body_id; VInt link_id]
                     {[ "computeLinkVelocity" := VInt 1 ]};
        '(lin_vel, ang_vel) ← link_velocity_pair state;
        ret (np_array (vec3_list lin_vel ++ vec3_list ang_vel))
  | Many link_ids =>
      velocities ← for_each link_ids []
        (λ velocities link_id,
           if bool_decide (link_id = -1) then
             (* base link *)
             '(lin_vel, ang_vel) ← get_base_velocity body_id;
             ret (velocities ++ [np_array (data lin_vel ++ data ang_vel)])
           else
             state ← call getLinkState [VInt body_id; VInt link_id]
                          {[ "computeLinkVelocity" := VInt 1 ]};
             '(lin_vel, ang_vel) ← link_velocity_pair state;
             ret (velocities
                    ++ [np_array (vec3_list lin_vel ++ vec3_list ang_vel)]));
      np_array_rows velocities
  end.

Definition get_actuated_joint_ids (body_id : Z) : M float estate (list Z) :=
  n ← num_joints body_id;
  for_each (seqZ 0 n) []
    (λ joint_ids joint_id,
       jnt ← get_joint_info body_id joint_id;
       if bool_decide (jointType jnt ≠ JOINT_FIXED)
       then ret (joint_ids ++ [jointIndex jnt])
       else ret joint_ids).

(** [[f(x) for x in l]] *)
Fixpoint list_comprehension {A B} (f : A → M float estate B) (l : list A)
  : M float estate (list B) :=
  match l with
  | [] => ret []
  | x :: l' => y ← f x; ys ← list_comprehension f l'; ret (y :: ys)
  end.





Definition get_joint_positions (body_id : Z) (joint_ids : ids)
  : M float estate (num float) :=
  match joint_ids with
  | One joint_id =>
      state ← call getJointState [VInt body_id; VInt joint_id] ∅;
      ret (NFloat (jointPosition state))
  | Many _ =>
      states ← call getJointStates [VInt body_id; ids_value joint_ids] ∅;
      ret (NArray (np_array (jointPosition <$> states)))
  end.

(** The two branches are not exclusive: there is neither [else] nor
    [return] after a call. *)
Definition set_joint_velocities (body_id : Z) (joint_ids : ids)
    (velocities max_force : val) : M float estate unit :=
  (match joint_ids with
   | One _ =>
       (if is_None max_force then
          call setJointMotorControl2
               [VInt body_id; ids_value joint_ids; VInt VELOCITY_CONTROL]
               {[ "targetVelocity" := velocities ]}
        else ret tt) ;;
       call setJointMotorControl2
            [VInt body_id; ids_value joint_ids; VInt VELOCITY_CONTROL]
            (<["targetVelocity" := velocities]> {[ "force" := max_force ]})
   | Many _ => ret tt
   end) ;;
  (if is_None max_force then
     call setJointMotorControlArray
          [VInt body_id; ids_value joint_ids; VInt VELOCITY_CONTROL]
          {[ "targetVelocities" := velocities ]}
   else ret tt) ;;
  call setJointMotorControlArray
       [VInt body_id; ids_value joint_ids; VInt VELOCITY_CONTROL]
       (<["targetVelocities" := velocities]> {[ "forces" := max_force ]}) ;;
  ret tt.

Definition get_joint_velocities (body_id : Z) (joint_ids : ids)
  : M float estate (num float) :=
  match joint_ids with
  | One joint_id =>
      state ← call getJointState [VInt body_id; VInt joint_id] ∅;
      ret (NFloat (jointVelocity state))
  | Many _ =>
      states ← call getJointStates [VInt body_id; ids_value joint_ids] ∅;
      ret (NArray (np_array (jointVelocity <$> states)))
  end.

Definition set_joint_torques (body_id : Z) (joint_ids : ids) (torques : val)
  : M float estate unit :=
  (match joint_ids with
   | One _ =>
       call setJointMotorControl2
            [VInt body_id; ids_value joint_ids; VInt TORQUE_CONTROL]
            {[ "force" := torques ]}
   | Many _ => ret tt
   end) ;;
  call setJointMotorControlArray
       [VInt body_id; ids_value joint_ids; VInt TORQUE_CONTROL]
       {[ "forces" := torques ]} ;;
  ret tt.


Definition calculate_inverse_dynamics (body_id : Z) (q dq des_ddq : num float)
  : M float estate (ndarray float) :=
  let q := tolist_if_ndarray q in
  let dq := tolist_if_ndarray dq in
  let des_ddq := tolist_if_ndarray des_ddq in
  torques ← call calculateInverseDynamics
                 [VInt body_id; num_value q; num_value dq; num_value des_ddq] ∅;
  ret (np_array torques).

(** [len(x)] *)
Definition len (x : num float) : M float estate nat :=
  lift (py_len x) (TypeError "object has no len()").

(** [self.get_qindex(joint_ids)]: the method takes [body_id] and
    [joint_ids]; called with one argument it raises before its body
    runs. *)
Definition get_qindex_missing_argument {A} : M float estate A :=
  raise (TypeError "get_qindex() takes exactly 3 arguments (2 given)").

Definition set_joint_accelerations (body_id : Z) (joint_ids : ids)
    (accelerations : num float) (q dq : option (num float))
  : M float estate unit :=
  (* check joint ids *)
  let joint_ids := match joint_ids with One i => [i] | Many l => l end in
  let accelerations :=
    match accelerations with NFloat x => NList [x] | _ => accelerations end in
  n_acc ← len accelerations;
  if bool_decide (n_acc ≠ length joint_ids) then
    raise (ValueError
             ("Expecting the desired accelerations to be of the same size as "
              +:+ "the number of joints; " +:+ pretty n_acc +:+ " != "
              +:+ pretty (length joint_ids)))
  else
    (* get position and velocities *)
    '(q, dq) ←
      match q, dq with
      | Some q, Some dq => ret (q, dq)
      | _, _ =>
          joints ← get_actuated_joint_ids body_id;
          q ← match q with
              | None => get_joint_positions body_id (Many joints)
              | Some q => ret q
              end;
          dq ← match dq with
               | None => get_joint_velocities body_id (Many joints)
               | Some dq => ret dq
               end;
          ret (q, dq)
      end;
    num_actuated_joints ← len q;
    (* if joint accelerations vector is not the same size as the actuated
       joints *)
    accelerations ←
      (if bool_decide (n_acc ≠ num_actuated_joints)
       then get_qindex_missing_argument
       else ret accelerations);
    (* compute joint torques from Inverse Dynamics *)
    torques ← calculate_inverse_dynamics body_id q dq accelerations;
    (* get corresponding torques *)
    n_torques ← len (NArray torques);
    torques ←
      (if bool_decide (n_torques ≠ length joint_ids)
       then get_qindex_missing_argument
       else ret torques);
    (* set the joint torques *)
    set_joint_torques body_id (Many joint_ids) (array_value torques).

(** *** Visualization *)

Definition create_visual_shape (shape_type : Z)
    (radius half_extents length filename mesh_scale plane_normal flags
     rgba_color specular_color visual_frame_position vertices indices uvs
     normals visual_frame_orientation : val) : M float estate Z :=
  (* add few variables *)
  let kwargs := ∅ in
  let kwargs := set_if_not_None "rgbaColor" rgba_color kwargs in
  let kwargs := set_if_not_None "specularColor" specular_color kwargs in
  let kwargs := set_if_not_None "visualFramePosition" visual_frame_position kwargs in
  let kwargs := set_if_not_None "visualFrameOrientation"
                                visual_frame_orientation kwargs in
  if bool_decide (shape_type = GEOM_SPHERE) then
    call createVisualShape [VInt shape_type] (<["radius" := radius]> kwargs)
  else if bool_decide (shape_type = GEOM_BOX) then
    call createVisualShape [VInt shape_type]
         (<["halfExtents" := half_extents]> kwargs)
  else if bool_decide (shape_type = GEOM_CAPSULE)
          || bool_decide (shape_type = GEOM_CYLINDER) then
    call createVisualShape [VInt shape_type]
         (<["radius" := radius]> (<["length" := length]> kwargs))
  else if bool_decide (shape_type = GEOM_PLANE) then
    call createVisualShape [VInt shape_type]
         (<["planeNormal" := plane_normal]> kwargs)
  else if bool_decide (shape_type = GEOM_MESH) then
    let kwargs :=
      if is_not_None filename then <["fileName" := filename]> kwargs
      else
        let kwargs := set_if_not_None "vertices" vertices kwargs in
        let kwargs := set_if_not_None "indices" indices kwargs in
        let kwargs := set_if_not_None "uvs" uvs kwargs in
        let kwargs := set_if_not_None "normals" normals kwargs in
        kwargs in
    call createVisualShape [VInt shape_type] kwargs
  else raise (ValueError "Unknown visual shape type.").

Definition change_visual_shape
    (object_id link_id shape_id texture_id rgba_color specular_color : val)
  : M float estate unit :=
  let kwargs := ∅ in
  let kwargs := set_if_not_None "shapeIndex" shape_id kwargs in
  let kwargs := set_if_not_None "textureUniqueId" texture_id kwargs in
  let kwargs := set_if_not_None "rgbaColor" rgba_color kwargs in
  let kwargs := set_if_not_None "specularColor" specular_color kwargs in
  call changeVisualShape [object_id; link_id] kwargs ;; ret tt.

(** [np.array(flat).reshape(4, 4)] *)
Definition reshape_4_4 (flat : list float) : M float estate (ndarray float) :=
  lift (nd_reshape (np_array flat) [4; 4]%nat)
       (ValueError "cannot reshape array into shape (4,4)").

Definition compute_view_matrix (eye_position target_position up_vector : val)
  : M float estate (ndarray float) :=
  view ← call computeViewMatrix []
              (<["eyePosition" := eye_position]>
               (<["targetPosition" := target_position]>
                {[ "upVector" := up_vector ]}));
  a ← reshape_4_4 view;
  ret (nd_T a).

Definition compute_view_matrix_from_ypr (target_position distance : val)
    (yaw pitch roll : float) (up_axis_index : val)
  : M float estate (ndarray float) :=
  view ← call computeViewMatrixFromYawPitchRoll []
              (<["targetPosition" := target_position]>
               (<["distance" := distance]>
                (<["yaw" := VFloat (np_rad2deg yaw)]>
                 (<["pitch" := VFloat (np_rad2deg pitch)]>
                  (<["roll" := VFloat (np_rad2deg roll)]>
                   {[ "upAxisIndex" := up_axis_index ]})))));
  a ← reshape_4_4 view;
  ret (nd_T a).

Definition compute_projection_matrix (left right bottom top near far : val)
  : M float estate (ndarray float) :=
  proj ← call computeProjectionMatrix [left; right; bottom; top; near; far] ∅;
  a ← reshape_4_4 proj;
  ret (nd_T a).

Definition compute_projection_matrix_fov (fov aspect near far : val)
  : M float estate (ndarray float) :=
  proj ← call computeProjectionMatrixFOV [fov; aspect; near; far] ∅;
  a ← reshape_4_4 proj;
  ret (nd_T a).

(** *** Collisions and dynamics *)

Definition create_collision_shape (shape_type : Z)
    (radius half_extents height filename mesh_scale plane_normal flags
     collision_frame_position collision_frame_orientation : val)
  : M float estate Z :=
  (* add few variables *)
  let kwargs := ∅ in
  let kwargs := set_if_not_None "collisionFramePosition"
                                collision_frame_position kwargs in
  let kwargs := set_if_not_None "collisionFrameOrientation"
                                collision_frame_orientation kwargs in
  if bool_decide (shape_type = GEOM_SPHERE) then
    call createCollisionShape [VInt shape_type] (<["radius" := radius]> kwargs)
  else if bool_decide (shape_type = GEOM_BOX) then
    call createCollisionShape [VInt shape_type]
         (<["halfExtents" := half_extents]> kwargs)
  else if bool_decide (shape_type = GEOM_CAPSULE)
          || bool_decide (shape_type = GEOM_CYLINDER) then
    call createCollisionShape [VInt shape_type]
         (<["radius" := radius]> (<["height" := height]> kwargs))
  else if bool_decide (shape_type = GEOM_PLANE) then
    call createCollisionShape [VInt shape_type]
         (<["planeNormal" := plane_normal]> kwargs)
  else if bool_decide (shape_type = GEOM_MESH) then
    call createCollisionShape [VInt shape_type]
         (<["fileName" := filename]> kwargs)
  else raise (ValueError "Unknown collision shape type.").

Definition change_dynamics
    (body_id link_id mass lateral_friction spinning_friction rolling_friction
     restitution linear_damping angular_damping contact_stiffness
     contact_damping friction_anchor local_inertia_diagonal joint_damping : val)
  : M float estate unit :=
  let kwargs := ∅ in
  let kwargs := set_if_not_None "mass" mass kwargs in
  let kwargs := set_if_not_None "lateralFriction" lateral_friction kwargs in
  let kwargs := set_if_not_None "spinningFriction" spinning_friction kwargs in
  let kwargs := set_if_not_None "rollingFriction" rolling_friction kwargs in
  let kwargs := set_if_not_None "restitution" restitution kwargs in
  let kwargs := set_if_not_None "linearDamping" linear_damping kwargs in
  let kwargs := set_if_not_None "angularDamping" angular_damping kwargs in
  let kwargs := set_if_not_None "contactStiffness" contact_stiffness kwargs in
  let kwargs := set_if_not_None "contactDamping" contact_damping kwargs in
  let kwargs := set_if_not_None "frictionAnchor" friction_anchor kwargs in
  let kwargs := set_if_not_None "localInertiaDiagonal"
                                local_inertia_diagonal kwargs in
  let kwargs := set_if_not_None "jointDamping" joint_damping kwargs in
  call changeDynamics [body_id; link_id] kwargs ;; ret tt.

(** *** Debug visualizer *)

(** The tuple returned by [get_debug_visualizer]. *)
Record DebugVisualizer : Type := {
  dv_width : Z;
  dv_height : Z;
  dv_view : ndarray float;
  dv_proj : ndarray float;
  dv_up_vec : ndarray float;
  dv_forward_vec : ndarray float;
  dv_horizontal : ndarray float;
  dv_vertical : ndarray float;
  dv_yaw : float;
  dv_pitch : float;
  dv_dist : float;
  dv_target : ndarray float
}.

Definition get_debug_visualizer : M float estate DebugVisualizer :=
  cam ← call getDebugVisualizerCamera [] ∅;
  (* convert data to the correct data type *)
  view ← reshape_4_4 (cam_viewMatrix cam);
  let view := nd_T view in
  proj ← reshape_4_4 (cam_projectionMatrix cam);
  let proj := nd_T proj in
  let up_vec := np_array (vec3_list (cam_cameraUp cam)) in
  let forward_vec := np_array (vec3_list (cam_cameraForward cam)) in
  let horizontal := np_array (vec3_list (cam_horizontal cam)) in
  let vertical := np_array (vec3_list (cam_vertical cam)) in
  let target := np_array (vec3_list (cam_target cam)) in
  let yaw := np_deg2rad (cam_yaw cam) in
  let pitch := np_deg2rad (cam_pitch cam) in
  (* return the data *)
  ret {| dv_width := cam_width cam; dv_height := cam_height cam;
         dv_view := view; dv_proj := proj; dv_up_vec := up_vec;
         dv_forward_vec := forward_vec; dv_horizontal := horizontal;
         dv_vertical := vertical; dv_yaw := yaw; dv_pitch := pitch;
         dv_dist := cam_dist cam; dv_target := target |}.

Definition reset_debug_visualizer (distance : val) (yaw pitch : float)
    (target_position : val) : M float estate unit :=
  call resetDebugVisualizerCamera []
       (<["cameraDistance" := distance]>
        (<["cameraYaw" := VFloat (np_rad2deg yaw)]>
         (<["cameraPitch" := VFloat (np_rad2deg pitch)]>
          {[ "cameraTargetPosition" := target_position ]}))) ;;
  ret tt.

End Bullet.

Arguments DebugVisualizer : clear implicits.

(** ** The adapter: further operations *)

Section MoreBullet.

Context {float estate : Type}.

(** [self.sim] *)
Variable eng : Engine float estate.

Local Abbreviation val := (value float).
Local Abbreviation call := (sim eng).

(** *** Meshes *)

(** The same dictionary [kwargs] serves the collision shape and then, with
    the colour added, the visual shape. *)
Definition load_mesh (filename position orientation mass scale color flags : val)
  : M float estate Z :=
  let kwargs := ∅ in
  let kwargs := set_if_not_None "flags" flags kwargs in
  (* create collision shape *)
  collision_shape ← call createCollisionShape [VInt GEOM_MESH]
                         (<["fileName" := filename]>
                          (<["meshScale" := scale]> kwargs));
  let kwargs := set_if_not_None "rgbaColor" color kwargs in
  (* create visual shape *)
  visual_shape ← call createVisualShape [VInt GEOM_MESH]
                      (<["fileName" := filename]>
                       (<["meshScale" := scale]> kwargs));
  (* create body *)
  mesh ← call createMultiBody []
              (<["baseMass" := mass]>
               (<["baseCollisionShapeIndex" := VInt collision_shape]>
                (<["baseVisualShapeIndex" := VInt visual_shape]>
                 (<["basePosition" := position]>
                  {[ "baseOrientation" := orientation ]}))));
  ret mesh.

(** *** Base velocity *)

Definition reset_base_linear_velocity (body_id : Z) (linear_velocity : val)
  : M float estate unit :=
  call resetBaseVelocity [VInt body_id]
       {[ "linearVelocity" := linear_velocity ]} ;;
  ret tt.

Definition reset_base_angular_velocity (body_id : Z) (angular_velocity : val)
  : M float estate unit :=
  call resetBaseVelocity [VInt body_id]
       {[ "angularVelocity" := angular_velocity ]} ;;
  ret tt.

(** *** Joint motors *)

Definition set_joint_motor_control
    (body_id joint_id control_mode position velocity force kp kd
     max_velocity : val) : M float estate unit :=
  let kwargs := ∅ in
  let kwargs := set_if_not_None "targetPosition" position kwargs in
  let kwargs := set_if_not_None "targetVelocity" velocity kwargs in
  let kwargs := set_if_not_None "force" force kwargs in
  let kwargs := set_if_not_None "positionGain" kp kwargs in
  let kwargs := set_if_not_None "velocityGain" kd kwargs in
  let kwargs := set_if_not_None "maxVelocity" max_velocity kwargs in
  call setJointMotorControl2 [body_id; joint_id]
       (<["controlMode" := control_mode]> kwargs) ;;
  ret tt.

Definition set_joint_motor_control_array
    (body_id joint_ids control_mode positions velocities forces kps kds : val)
  : M float estate unit :=
  let kwargs := ∅ in
  let kwargs := set_if_not_None "targetPositions" positions kwargs in
  let kwargs := set_if_not_None "targetVelocities" velocities kwargs in
  let kwargs := set_if_not_None "forces" forces kwargs in
  let kwargs := set_if_not_None "positionGains" kps kwargs in
  let kwargs := set_if_not_None "velocityGains" kds kwargs in
  call setJointMotorControlArray [body_id; joint_ids]
       (<["controlMode" := control_mode]> kwargs) ;;
  ret tt.

Definition set_joint_positions (body_id : Z) (joint_ids : ids)
    (positions velocities kps kds forces : val) : M float estate unit :=
  match joint_ids with
  | One _ =>
      set_joint_motor_control (VInt body_id) (ids_value joint_ids)
        (VInt POSITION_CONTROL) positions velocities forces kps kds VNone
  | Many _ =>
      set_joint_motor_control_array (VInt body_id) (ids_value joint_ids)
        (VInt POSITION_CONTROL) positions velocities forces kps kds
  end.

(** *** Link states *)

(** The entries of the tuple answered by [getLinkState], in order: six
    entries, then the velocities that are present. *)
Definition link_state_entries (state : LinkState float) : list (list float) :=
  [vec3_list (linkWorldPosition state);
   quat_list (linkWorldOrientation state);
   vec3_list (localInertialFramePosition state);
   quat_list (localInertialFrameOrientation state);
   vec3_list (worldLinkFramePosition state);
   quat_list (worldLinkFrameOrientation state)]
  ++ option_list (vec3_list <$> worldLinkLinearVelocity state)
  ++ option_list (vec3_list <$> worldLinkAngularVelocity state).

Definition get_link_state (body_id link_id : Z)
    (compute_velocity compute_forward_kinematics : val)
  : M float estate (list (ndarray float)) :=
  results ← call getLinkState [VInt body_id; VInt link_id]
                 (<["computeLinkVelocity" := compute_velocity]>
                  {[ "computeForwardKinematics" := compute_forward_kinematics ]});
  ret (np_array <$> link_state_entries results).

Definition get_link_states (body_id : Z) (link_ids : list Z)
    (compute_velocity compute_forward_kinematics : val)
  : M float estate (list (list (ndarray float))) :=
  list_comprehension
    (λ link_id, get_link_state body_id link_id compute_velocity
                  compute_forward_kinematics)
    link_ids.

(** *** Engine methods outside the table

    The operations below call client methods that are not in [method]
    ([executePluginCommand], [getContactPoints], [getCameraImage]); each
    such method is a parameter: the computation that the client runs on
    the positional and keyword arguments it is given. *)

(** [isinstance(x, float)] *)
Definition isinstance_float (v : val) : bool :=
  match v with VFloat _ => true | _ => false end.

(** [kwargs.setdefault(name, []).append(arg)].  The two keys used this way
    only ever hold the lists built here; another value is left alone. *)
Definition setdefault_append (name : string) (arg : val)
    (kwargs : gmap string val) : gmap string val :=
  match kwargs !! name with
  | None => <[name := VList [arg]]> kwargs
  | Some (VList l) => <[name := VList (l ++ [arg])]> kwargs
  | Some _ => kwargs
  end.

Definition execute_plugin_command
    (executePluginCommand : list val → gmap string val → M float estate unit)
    (plugin_id : val) (args : list val) : M float estate unit :=
  let kwargs :=
    foldl (λ kwargs arg,
             if isinstance_str arg then <["textArgument" := arg]> kwargs
             else if isinstance_int arg then
               setdefault_append "intArgs" arg kwargs
             else if isinstance_float arg then
               setdefault_append "floatArgs" arg kwargs
             else kwargs)
          ∅ args in
  executePluginCommand [plugin_id] kwargs ;; ret tt.

(** One contact point, as the engine answers it (the fourteen entries
    listed in the docstring of [get_contact_points]). *)
Record ContactPoint : Type := {
  contactFlag : Z;
  bodyUniqueIdA : Z;
  bodyUniqueIdB : Z;
  linkIndexA : Z;
  linkIndexB : Z;
  positionOnA : vec3 float;
  positionOnB : vec3 float;
  contactNormalOnB : vec3 float;
  contactDistance : float;
  normalForce : float;
  lateralFriction1 : float;
  lateralFrictionDir1 : vec3 float;
  lateralFriction2 : float;
  lateralFrictionDir2 : vec3 float
}.

(** One contact point, as the adapter returns it: the vectors are
    arrays. *)
Record Contact : Type := {
  c_flag : Z;
  c_bodyA : Z;
  c_bodyB : Z;
  c_linkA : Z;
  c_linkB : Z;
  c_positionOnA : ndarray float;
  c_positionOnB : ndarray float;
  c_normalOnB : ndarray float;
  c_distance : float;
  c_normalForce : float;
  c_lateralFriction1 : float;
  c_lateralFrictionDir1 : ndarray float;
  c_lateralFriction2 : float;
  c_lateralFrictionDir2 : ndarray float
}.

(** [[r[0], ..., np.array(r[5]), ..., np.array(r[13])]] *)
Definition contact_of (r : ContactPoint) : Contact :=
  {| c_flag := contactFlag r; c_bodyA := bodyUniqueIdA r;
     c_bodyB := bodyUniqueIdB r; c_linkA := linkIndexA r;
     c_linkB := linkIndexB r;
     c_positionOnA := np_array (vec3_list (positionOnA r));
     c_positionOnB := np_array (vec3_list (positionOnB r));
     c_normalOnB := np_array (vec3_list (contactNormalOnB r));
     c_distance := contactDistance r; c_normalForce := normalForce r;
     c_lateralFriction1 := lateralFriction1 r;
     c_lateralFrictionDir1 := np_array (vec3_list (lateralFrictionDir1 r));
     c_lateralFriction2 := lateralFriction2 r;
     c_lateralFrictionDir2 := np_array (vec3_list (lateralFrictionDir2 r)) |}.

Definition get_contact_points
    (getContactPoints : list val → gmap string val →
                        M float estate (list ContactPoint))
    (body_a body_b link_id_a link_id_b : val) : M float estate (list Contact) :=
  let kwargs := ∅ in
  let kwargs :=
    if is_not_None body_a then
      let kwargs := <["bodyA" := body_a]> kwargs in
      set_if_not_None "linkIndexA" link_id_a kwargs
    else kwargs in
  let kwargs :=
    if is_not_None body_b then
      let kwargs := <["bodyB" := body_b]> kwargs in
      set_if_not_None "linkIndexB" link_id_b kwargs
    else kwargs in
  results ← getContactPoints [] kwargs;
  if bool_decide (length results = 0%nat) then ret []
  else ret (contact_of <$> results).

(** The source calls [getContactPoints] here too, with the bodies and the
    distance as positional arguments. *)
Definition get_closest_points
    (getContactPoints : list val → gmap string val →
                        M float estate (list ContactPoint))
    (body_a body_b distance link_id_a link_id_b : val)
  : M float estate (list Contact) :=
  let kwargs := ∅ in
  let kwargs := set_if_not_None "linkIndexA" link_id_a kwargs in
  let kwargs := set_if_not_None "linkIndexB" link_id_b kwargs in
  results ← getContactPoints [body_a; body_b; distance] kwargs;
  if bool_decide (length results = 0%nat) then ret []
  else ret (contact_of <$> results).

(** [m.T.ravel().tolist()] for an array, the matrix as given otherwise. *)
Definition matrix_kwarg (m : val) : val :=
  match m with
  | VArray sh d => ravel_tolist (nd_T (NdArray sh d))
  | _ => m
  end.

(** [v.ravel().tolist()] for an array, the vector as given otherwise. *)
Definition vector_kwarg (v : val) : val :=
  match v with
  | VArray sh d => ravel_tolist (NdArray sh d)
  | _ => v
  end.

(** The answer of [getCameraImage]: width, height, the RGBA pixels, the
    depth buffer and the segmentation mask, each as a flat list. *)
Definition CameraImage : Type :=
  nat * nat * list Z * list float * list Z.

(** The keyword dictionary of [get_camera_image], [get_rgba_image],
    [get_depth_image] and [get_segmentation_image]: the four operations
    build it with the same statements. *)
Definition camera_kwargs
    (view_matrix projection_matrix light_direction light_color
     light_distance : val) (shadow : option bool)
    (light_ambient_coeff light_diffuse_coeff light_specular_coeff renderer
     flags : val) : gmap string val :=
  let kwargs := ∅ in
  let kwargs :=
    if is_not_None view_matrix
    then <["viewMatrix" := matrix_kwarg view_matrix]> kwargs else kwargs in
  let kwargs :=
    if is_not_None projection_matrix
    then <["projectionMatrix" := matrix_kwarg projection_matrix]> kwargs
    else kwargs in
  let kwargs :=
    if is_not_None light_direction
    then <["lightDirection" := vector_kwarg light_direction]> kwargs
    else kwargs in
  let kwargs := set_if_not_None "lightColor" light_color kwargs in
  let kwargs := set_if_not_None "lightDistance" light_distance kwargs in
  let kwargs := set_int_if_not_None "shadow" shadow kwargs in
  let kwargs := set_if_not_None "lightAmbientCoeff" light_ambient_coeff kwargs in
  let kwargs := set_if_not_None "lightDiffuseCoeff" light_diffuse_coeff kwargs in
  let kwargs := set_if_not_None "lightSpecularCoeff" light_specular_coeff kwargs in
  let kwargs := set_if_not_None "renderer" renderer kwargs in
  let kwargs := set_if_not_None "flags" flags kwargs in
  kwargs.

(** [np.array(x).reshape(dims)] *)
Definition reshaped {A} (x : list A) (dims : list nat)
  : M float estate (ndarray A) :=
  lift (nd_reshape (np_array x) dims) (ValueError "cannot reshape array").

Definition get_camera_image
    (getCameraImage : list val → gmap string val → M float estate CameraImage)
    (width height view_matrix projection_matrix light_direction light_color
     light_distance : val) (shadow : option bool)
    (light_ambient_coeff light_diffuse_coeff light_specular_coeff renderer
     flags : val)
  : M float estate (nat * nat * ndarray Z * ndarray float * ndarray Z) :=
  let kwargs :=
    camera_kwargs view_matrix projection_matrix light_direction light_color
      light_distance shadow light_ambient_coeff light_diffuse_coeff
      light_specular_coeff renderer flags in
  '(width, height, rgba, depth, segmentation) ←
    getCameraImage [width; height] kwargs;
  rgba ← reshaped rgba [width; height; 4%nat];
  depth ← reshaped depth [width; height];
  segmentation ← reshaped segmentation [width; height];
  ret (width, height, rgba, depth, segmentation).

(** The three operations below reshape with the width and height that the
    caller asked for, which must be ints for [reshape]: they are natural
    numbers here. *)
Definition get_rgba_image
    (getCameraImage : list val → gmap string val → M float estate CameraImage)
    (width height : nat)
    (view_matrix projection_matrix light_direction light_color
     light_distance : val) (shadow : option bool)
    (light_ambient_coeff light_diffuse_coeff light_specular_coeff renderer
     flags : val) : M float estate (ndarray Z) :=
  let kwargs :=
    camera_kwargs view_matrix projection_matrix light_direction light_color
      light_distance shadow light_ambient_coeff light_diffuse_coeff
      light_specular_coeff renderer flags in
  answer ← getCameraImage [VInt (Z.of_nat width); VInt (Z.of_nat height)] kwargs;
  let '(_, _, rgba, _, _) := answer in
  reshaped rgba [width; height; 4%nat].

Definition get_depth_image
    (getCameraImage : list val → gmap string val → M float estate CameraImage)
    (width height : nat)
    (view_matrix projection_matrix light_direction light_color
     light_distance : val) (shadow : option bool)
    (light_ambient_coeff light_diffuse_coeff light_specular_coeff renderer
     flags : val) : M float estate (ndarray float) :=
  let kwargs :=
    camera_kwargs view_matrix projection_matrix light_direction light_color
      light_distance shadow light_ambient_coeff light_diffuse_coeff
      light_specular_coeff renderer flags in
  answer ← getCameraImage [VInt (Z.of_nat width); VInt (Z.of_nat height)] kwargs;
  let '(_, _, _, depth, _) := answer in
  reshaped depth [width; height].

Definition get_segmentation_image
    (getCameraImage : list val → gmap string val → M float estate CameraImage)
    (width height : nat)
    (view_matrix projection_matrix light_direction light_color
     light_distance : val) (shadow : option bool)
    (light_ambient_coeff light_diffuse_coeff light_specular_coeff renderer
     flags : val) : M float estate (ndarray Z) :=
  let kwargs :=
    camera_kwargs view_matrix projection_matrix light_direction light_color
      light_distance shadow light_ambient_coeff light_diffuse_coeff
      light_specular_coeff renderer flags in
  answer ← getCameraImage [VInt (Z.of_nat width); VInt (Z.of_nat height)] kwargs;
  let '(_, _, _, _, segmentation) := answer in
  reshaped segmentation [width; height].

(** *** Inverse kinematics *)

(** The four null-space parameters are stored together, and only when
    all four are given. *)
Definition calculate_inverse_kinematics
    (calculateInverseKinematics :
       list val → gmap string val → M float estate (list float))
    (body_id link_id position orientation lower_limits upper_limits
     joint_ranges rest_poses joint_dampings solver q_curr max_iters
     threshold : val) : M float estate (ndarray float) :=
  let kwargs := ∅ in
  let kwargs :=
    if is_not_None orientation
    then <["targetOrientation" := vector_kwarg orientation]> kwargs
    else kwargs in
  let kwargs :=
    if is_not_None lower_limits && is_not_None upper_limits
       && is_not_None joint_ranges && is_not_None rest_poses
    then <["restPoses" := rest_poses]>
           (<["jointRanges" := joint_ranges]>
              (<["upperLimits" := upper_limits]>
                 (<["lowerLimits" := lower_limits]> kwargs)))
    else kwargs in
  let kwargs :=
    if is_not_None q_curr
    then <["currentPosition" := vector_kwarg q_curr]> kwargs else kwargs in
  let kwargs :=
    if is_not_None joint_dampings
    then <["jointDamping" := vector_kwarg joint_dampings]> kwargs
    else kwargs in
  let kwargs := set_if_not_None "solver" solver kwargs in
  let kwargs := set_if_not_None "maxNumIterations" max_iters kwargs in
  let kwargs := set_if_not_None "residualThreshold" threshold kwargs in
  q ← calculateInverseKinematics [body_id; link_id; position] kwargs;
  ret (np_array q).

(** *** Joint limits and axes *)

(** [info[8:10]] *)
Definition joint_limits_slice (info : JointInfo float) : list float :=
  [jointLowerLimit info; jointUpperLimit info].

Definition get_joint_limits (body_id : Z) (joint_ids : ids)
  : M float estate (ndarray float) :=
  match joint_ids with
  | One joint_id =>
      info ← call getJointInfo [VInt body_id; VInt joint_id] ∅;
      ret (np_array (joint_limits_slice info))
  | Many joint_ids =>
      limits ← list_comprehension
        (λ joint_id,
           info ← call getJointInfo [VInt body_id; VInt joint_id] ∅;
           ret (joint_limits_slice info)) joint_ids;
      np_array_rows (np_array <$> limits)
  end.

Definition get_joint_axes (body_id : Z) (joint_ids : ids)
  : M float estate (ndarray float) :=
  match joint_ids with
  | One joint_id =>
      info ← call getJointInfo [VInt body_id; VInt joint_id] ∅;
      ret (np_array (vec3_list (jointAxis info)))
  | Many joint_ids =>
      axes ← list_comprehension
        (λ joint_id,
           info ← call getJointInfo [VInt body_id; VInt joint_id] ∅;
           ret (vec3_list (jointAxis info))) joint_ids;
      np_array_rows (np_array <$> axes)
  end.

End MoreBullet.

Arguments ContactPoint : clear implicits.
Arguments Contact : clear implicits.
Arguments CameraImage : clear implicits.


(** ** Observing a run *)

Section Observations.

Context {float estate : Type}.

Local Abbreviation val := (value float).

(** The engine calls issued by running [m] from the world [w], oldest
    first. *)
Definition issued {A} (m : M float estate A) (w : World float estate)
  : list (Call float) :=
  drop (length (trace w)) (trace (m w).2).

(** What running [m] from [w] returns or raises. *)
Definition outcome {A} (m : M float estate A) (w : World float estate)
  : result A :=
  (m w).1.

(** The value stored for an optional boolean flag that goes through
    [int]. *)
Definition option_int (b : option bool) : val :=
  match b with
  | Some b => int_of_bool b
  | None => VNone
  end.

(** A parameter table pairs the engine-side name of each optional
    parameter with the value the caller gave ([None] when omitted); the
    names of the supplied parameters are those whose value is not [None]. *)
Definition supplied_names (table : list (string * val)) : gset string :=
  list_to_set (fst <$> filter (λ p, is_not_None p.2) table).

(** [m] forwards exactly the supplied parameters of [table] to the engine
    method [target]: it issues one call on [target] whose keyword names
    are the names of the supplied parameters, each bound to the value
    given, and nothing is bound for an omitted parameter. *)
Definition forwards_exactly {A} (m : M float estate A) (target : method)
    (table : list (string * val)) : Prop :=
  ∀ w, ∃ pos kw,
    issued m w = [MkCall target pos kw]
    ∧ dom kw = supplied_names table
    ∧ ∀ name v, (name, v) ∈ table →
        kw !! name = if is_not_None v then Some v else None.

(** One step of the keyword accumulation. *)
Definition assign (kw : gmap string val) (p : string * val) : gmap string val :=
  set_if_not_None p.1 p.2 kw.

End Observations.

Section Conventions.

Context {float estate : Type}.

Local Abbreviation val := (value float).

Definition scalar_of (x : num float) : option float :=
  match x with NFloat f => Some f | _ => None end.

Definition row_of (x : num float) : option (ndarray float) :=
  match x with
  | NFloat _ => None
  | NList l => Some (np_array l)
  | NArray a => Some a
  end.

(** [np.array(xs)] on a Python list of results: scalars make a
    one-dimensional array, arrays are stacked. *)
Definition np_array_of (xs : list (num float)) : option (num float) :=
  match mapM scalar_of xs with
  | Some fs => Some (NArray (np_array fs))
  | None => rows ← mapM row_of xs; NArray <$> np_stack rows
  end.

(** The batch reading of a single-identifier accessor:
    [np.array([single(i) for i in l])]. *)
Definition one_per_identifier (single : Z → M float estate (num float))
    (l : list Z) : M float estate (num float) :=
  xs ← list_comprehension single l;
  lift (np_array_of xs) (ValueError "setting an array element with a sequence").


(** An accessor that returns an array, seen as returning a numeric
    result. *)
Definition as_num (m : M float estate (ndarray float))
  : M float estate (num float) :=
  a ← m; ret (NArray a).



(** [m] issues exactly one engine call, on the method [target]. *)
Definition calls_once {A} (m : M float estate A) (target : method) : Prop :=
  ∀ w, ∃ a k, issued m w = [MkCall target a k].

(** Every engine call that [m] issues satisfies [P]; the calls issued
    before are kept. *)
Definition all_calls {A} (P : Call float → Prop) (m : M float estate A) : Prop :=
  ∀ w, ∃ cs, trace (m w).2 = trace w ++ cs ∧ Forall P cs.

(** The adapter's matrix convention: the engine's flat list of 16 numbers,
    read row by row as a 4x4 array, is the transpose of the array [mat]
    that the adapter returns. *)
Definition matrix_convention (flat : list float) (mat : ndarray float) : Prop :=
  shape mat = [4; 4]%nat
  ∧ nd_T mat = {| shape := [4; 4]%nat; data := flat |}
  ∧ ∀ i j, (i < 4)%nat → (j < 4)%nat →
           data mat !! (4 * i + j)%nat = flat !! (4 * j + i)%nat.

(** The shape kinds that the shape-creation operations recognise. *)
Definition recognized_kind (shape_type : Z) : Prop :=
  shape_type ∈ [GEOM_SPHERE; GEOM_BOX; GEOM_CAPSULE; GEOM_CYLINDER;
                GEOM_PLANE; GEOM_MESH].

(** [m] raises an error of its own, before any engine call. *)
Definition raises_locally {A} (m : M float estate A) (w : World float estate)
  : Prop :=
  ∃ e, m w = (Raise (Local e), w).

(** The engine gives back the camera angles it was last given: after a
    [resetDebugVisualizerCamera] with yaw and pitch (in degrees),
    [getDebugVisualizerCamera] answers with the same yaw and pitch (and
    with two 4x4 matrices as flat lists). *)
Definition camera_round_trips (eng : Engine float estate) : Prop :=
  ∀ kw s (yaw pitch : float),
    kw !! "cameraYaw" = Some (VFloat yaw) →
    kw !! "cameraPitch" = Some (VFloat pitch) →
    ∃ s' cam s'',
      eng resetDebugVisualizerCamera [] kw s = (inr tt, s')
      ∧ eng getDebugVisualizerCamera [] ∅ s' = (inr cam, s'')
      ∧ cam_yaw cam = yaw ∧ cam_pitch cam = pitch
      ∧ length (cam_viewMatrix cam) = 16%nat
      ∧ length (cam_projectionMatrix cam) = 16%nat.


(** The list of identifiers that an identifier argument stands for. *)
Definition id_list (j : ids) : list Z :=
  match j with
  | One i => [i]
  | Many l => l
  end.


(** A call that is not a [getLinkState] query on link [-1]. *)
Definition not_a_link_query_on_the_base (c : Call float) : Prop :=
  meth c = getLinkState → args c !! 1%nat ≠ Some (VInt (-1)).


(** A continuation that issues no engine call. *)
Definition quiet {A B} (f : A → M float estate B) : Prop :=
  ∀ x w, trace (f x w).2 = trace w.

(** The first call of [reset_base_position] and [reset_base_orientation]
    reads the base pose; the reset follows when the engine answered. *)
Definition pose_then_reset (eng : Engine float estate) (body_id : Z)
    (w : World float estate)
    (reset_args : vec3 float * quat float → list val) : list (Call float) :=
  MkCall getBasePositionAndOrientation [VInt body_id] ∅
  :: match (eng getBasePositionAndOrientation [VInt body_id] ∅ (est w)).1 with
     | inl _ => []
     | inr pose => [MkCall resetBasePositionAndOrientation (reset_args pose) ∅]
     end.

End Conventions.

(** ** A reference engine

    A small engine over rational numbers, used to run the adapter on
    concrete inputs.  It keeps the camera angles it was last given, answers
    link and joint queries from the identifiers and accepts every other
    call. *)

Record toy_state : Type := { toy_yaw : Q; toy_pitch : Q }.

Definition toy_float_kwarg (k : gmap string (value Q)) (name : string)
    (default : Q) : Q :=
  match k !! name with
  | Some (VFloat x) => x
  | _ => default
  end.

Definition toy_int_arg (a : list (value Q)) (i : nat) : Z :=
  match a !! i with
  | Some (VInt n) => n
  | _ => 0
  end.

Definition toy_joint_state (j : Z) : JointState Q :=
  {| jointPosition := inject_Z j;
     jointVelocity := inject_Z (2 * j);
     jointReactionForces := [0; 0; 0; 0; 0; 0]%Q;
     appliedJointMotorTorque := 0%Q |}.

Definition toy_joint_info (j : Z) : JointInfo Q :=
  {| jointIndex := j; jointName := "joint"; jointType := 0; qIndex := 7 + j;
     uIndex := 6 + j; jointFlags := 0; jointDamping := 0%Q;
     jointFriction := 0%Q; jointLowerLimit := 0%Q; jointUpperLimit := 1%Q;
     jointMaxForce := 1%Q; jointMaxVelocity := 1%Q; linkName := "link";
     jointAxis := (0, 0, 1)%Q; parentFramePos := (0, 0, 0)%Q;
     parentFrameOrn := (0, 0, 0, 1)%Q; parentIndex := j - 1 |}.

Definition toy_link_state (l : Z) (with_velocity : bool) : LinkState Q :=
  {| linkWorldPosition := (inject_Z l, 0, 0)%Q;
     linkWorldOrientation := (0, 0, 0, 1)%Q;
     localInertialFramePosition := (0, 0, 0)%Q;
     localInertialFrameOrientation := (0, 0, 0, 1)%Q;
     worldLinkFramePosition := (inject_Z l, 0, 0)%Q;
     worldLinkFrameOrientation := (0, 0, 0, 1)%Q;
     worldLinkLinearVelocity :=
       if with_velocity then Some (0, inject_Z l, 0)%Q else None;
     worldLinkAngularVelocity :=
       if with_velocity then Some (0, 0, inject_Z l)%Q else None |}.

(** The flat list 0, 1, ..., 15. *)
Definition toy_flat_matrix : list Q := inject_Z <$> seqZ 0 16.

Definition toy_camera (s : toy_state) : CameraInfo Q :=
  {| cam_width := 640; cam_height := 480;
     cam_viewMatrix := toy_flat_matrix;
     cam_projectionMatrix := toy_flat_matrix;
     cam_cameraUp := (0, 0, 1)%Q; cam_cameraForward := (1, 0, 0)%Q;
     cam_horizontal := (0, 1, 0)%Q; cam_vertical := (0, 0, 1)%Q;
     cam_yaw := toy_yaw s; cam_pitch := toy_pitch s; cam_dist := 1%Q;
     cam_target := (0, 0, 0)%Q |}.

Definition toy_joint_ids (v : option (value Q)) : list Z :=
  match v with
  | Some (VList l) => omap (λ x, match x with VInt j => Some j | _ => None end) l
  | _ => []
  end.

Definition toy_engine : Engine Q toy_state :=
  λ m,
    match m as m0
      return list (value Q) → gmap string (value Q) → toy_state →
             (string + returns Q m0) * toy_state
    with
    | getPhysicsEngineParameters => λ _ _ s, (inr ∅, s)
    | startStateLogging => λ _ _ s, (inr 7, s)
    | loadURDF | createMultiBody | getNumBodies
    | createVisualShape | createCollisionShape => λ _ _ s, (inr 0, s)
    | getNumJoints => λ _ _ s, (inr 2, s)
    | getBasePositionAndOrientation =>
        λ _ _ s, (inr ((1, 2, 3)%Q, (0, 0, 0, 1)%Q), s)
    | getBaseVelocity => λ _ _ s, (inr ((4, 5, 6)%Q, (0, 0, 0)%Q), s)
    | getJointInfo => λ a _ s, (inr (toy_joint_info (toy_int_arg a 1)), s)
    | getJointState => λ a _ s, (inr (toy_joint_state (toy_int_arg a 1)), s)
    | getJointStates =>
        λ a _ s, (inr (toy_joint_state <$> toy_joint_ids (a !! 1%nat)), s)
    | getLinkState =>
        λ a k s,
          (inr (toy_link_state (toy_int_arg a 1)
                  (bool_decide (is_Some (k !! "computeLinkVelocity")))), s)
    | computeViewMatrix | computeViewMatrixFromYawPitchRoll
    | computeProjectionMatrix | computeProjectionMatrixFOV =>
        λ _ _ s, (inr toy_flat_matrix, s)
    | calculateInverseDynamics => λ _ _ s, (inr [0; 0]%Q, s)
    | getDebugVisualizerCamera => λ _ _ s, (inr (toy_camera s), s)
    | resetDebugVisualizerCamera =>
        λ _ k s,
          (inr tt, {| toy_yaw := toy_float_kwarg k "cameraYaw" (toy_yaw s);
                      toy_pitch := toy_float_kwarg k "cameraPitch" (toy_pitch s) |})
    | resetSimulation | setTimeStep | setRealTimeSimulation
    | setPhysicsEngineParameter | stopStateLogging | restoreState
    | removeBody | changeConstraint | removeConstraint
    | resetBasePositionAndOrientation | resetBaseVelocity
    | setJointMotorControl2 | setJointMotorControlArray
    | changeVisualShape | changeDynamics => λ _ _ s, (inr tt, s)
    end.

(** The world before any call. *)
Definition toy_world : World Q toy_state :=
  {| est := {| toy_yaw := 0; toy_pitch := 0 |}; trace := [] |}.

(** Conversions between radians and degrees over the rationals, with 355/113
    for pi. *)
Definition toy_rad2deg (x : Q) : Q := (x * (180 / (355 # 113)))%Q.
Definition toy_deg2rad (x : Q) : Q := (x * ((355 # 113) / 180))%Q.


(** ** Commands, parameters outside the table *)

Section Commands.

Context {float estate : Type}.
Variable eng : Engine float estate.

Local Abbreviation val := (value float).

(** The error, if any, with which the engine answers the call [c] in the
    state [s], and the state it leaves. *)
Definition engine_error (c : Call float) (s : estate) : option string :=
  match (eng (meth c) (args c) (kwargs c) s).1 with
  | inl msg => Some msg
  | inr _ => None
  end.

Definition engine_next (c : Call float) (s : estate) : estate :=
  (eng (meth c) (args c) (kwargs c) s).2.

(** Submitting the calls [cs] one after the other from the state [s],
    up to the first one that the engine answers with an error: the calls
    submitted, and that error if there is one. *)
Fixpoint submitted (cs : list (Call float)) (s : estate)
  : list (Call float) * option string :=
  match cs with
  | [] => ([], None)
  | c :: cs' =>
      match engine_error c s with
      | Some msg => ([c], Some msg)
      | None => let r := submitted cs' (engine_next c s) in (c :: r.1, r.2)
      end
  end.

(** [m] is the command sequence [cs]: it adds the calls of [cs] to the
    record in order, raises the first engine error and issues nothing after
    it, and returns [a] when the engine accepts them all. *)
Definition commands {A} (m : M float estate A) (cs : list (Call float))
    (a : A) : Prop :=
  ∀ w, trace (m w).2 = trace w ++ (submitted cs (est w)).1
       ∧ outcome m w = match (submitted cs (est w)).2 with
                       | Some msg => Raise (EngineError msg)
                       | None => Ok a
                       end.

(** The [getLinkState] query that [get_link_state] makes for a link. *)
Definition link_query (body_id : Z) (compute_velocity
    compute_forward_kinematics : val) (link_id : Z) : Call float :=
  MkCall getLinkState [VInt body_id; VInt link_id]
         (<["computeLinkVelocity" := compute_velocity]>
          {[ "computeForwardKinematics" := compute_forward_kinematics ]}).

(** The value found under [name] after the arguments [vs] of
    [execute_plugin_command] that satisfy [keep] were collected in a list:
    no entry when there is none. *)
Definition collected (keep : val → bool) (vs : list val) : option val :=
  match filter (λ v, keep v = true) vs with
  | [] => None
  | l => Some (VList l)
  end.

End Commands.

Section Forwarding.

Context {float estate : Type}.

Local Abbreviation val := (value float).

(** The keyword arguments [kw] are those of [fixed], bound whatever their
    value, and the supplied parameters of [table], and no other. *)
Definition keywords (kw : gmap string val) (fixed table : list (string * val))
  : Prop :=
  dom kw = list_to_set fixed.*1 ∪ supplied_names table
  ∧ (∀ name v, (name, v) ∈ fixed → kw !! name = Some v)
  ∧ (∀ name v, (name, v) ∈ table →
       kw !! name = if is_not_None v then Some v else None).

(** [m] issues one call, on [target] with the positional arguments [pos]
    and the keywords of [fixed] and [table]. *)
Definition forwards_beside {A} (m : M float estate A) (target : method)
    (pos : list val) (fixed table : list (string * val)) : Prop :=
  ∀ w, ∃ kw, issued m w = [MkCall target pos kw] ∧ keywords kw fixed table.

(** [kwargs[name] = v] for each pair of [fixed], the last pair first. *)
Definition bind_all (fixed : list (string * val)) (kw : gmap string val)
  : gmap string val :=
  foldr (λ p, <[p.1 := p.2]>) kw fixed.

(** [m] is the query [answer] followed by the reshaping of
    [get_camera_image]: with the width and height that the engine
    answers, the three buffers become arrays of shape (width, height, 4),
    (width, height) and (width, height) when they have that many
    elements, and the operation raises [ValueError] when one has not; an
    error of the query is the error of [m]. *)
Definition reshapes_the_answer
    (m : M float estate (nat * nat * ndarray Z * ndarray float * ndarray Z))
    (answer : M float estate (CameraImage float)) : Prop :=
  ∀ w,
    match answer w with
    | (Raise e, w') => m w = (Raise e, w')
    | (Ok (width, height, rgba, depth, segmentation), w') =>
        if bool_decide (length rgba = (width * (height * 4))%nat
                        ∧ length depth = (width * height)%nat
                        ∧ length segmentation = (width * height)%nat)
        then m w = (Ok (width, height,
                        {| shape := [width; height; 4%nat]; data := rgba |},
                        {| shape := [width; height]; data := depth |},
                        {| shape := [width; height]; data := segmentation |}),
                    w')
        else ∃ msg, m w = (Raise (Local (ValueError msg)), w')
    end.

End Forwarding.

(** A camera of the reference engine: a picture of one pixel. *)
Definition toy_getCameraImage (a : list (value Q)) (k : gmap string (value Q))
  : M Q toy_state (CameraImage Q) :=
  ret (1%nat, 1%nat, [0; 0; 0; 255], [1%Q], [0]).


(** ** Properties *)

Section Properties.

Context {float estate : Type}.
Variables np_rad2deg np_deg2rad : float → float.
Variable eng : Engine float estate.

Local Abbreviation val := (value float).
Local Abbreviation call := (sim eng).

(** *** Runs of the basic operations *)

Lemma run_ret {A} (a : A) (w : World float estate) :
  ret a w = (Ok a, w).
Proof. reflexivity. Qed.

Lemma run_bind {A B} (m : M float estate A) (f : A → M float estate B) w :
  (m ≫= f) w = match m w with
               | (Ok a, w') => f a w'
               | (Raise e, w') => (Raise e, w')
               end.
Proof. reflexivity. Qed.

Lemma run_call (m : method) a k (w : World float estate) :
  call m a k w =
    (match (eng m a k (est w)).1 with
     | inl msg => Raise (EngineError msg)
     | inr x => Ok x
     end,
     {| est := (eng m a k (est w)).2; trace := trace w ++ [MkCall m a k] |}).
Proof. unfold sim. destruct (eng m a k (est w)) as [[msg|x] s']; reflexivity. Qed.

Lemma issued_call (m : method) a k w :
  issued (call m a k) w = [MkCall m a k].
Proof. unfold issued. rewrite run_call. simpl. by rewrite drop_app_length. Qed.

Lemma issued_call_ret {A} (m : method) a k (r : A) w :
  issued (call m a k ;; ret r) w = [MkCall m a k].
Proof.
  unfold issued. rewrite run_bind, run_call.
  destruct (eng m a k (est w)).1; simpl; by rewrite drop_app_length.
Qed.

Lemma issued_ret {A} (a : A) (w : World float estate) : issued (ret a) w = [].
Proof. unfold issued. simpl. apply drop_all. Qed.

Lemma issued_raise {A} e (w : World float estate) :
  issued (raise (A := A) e) w = [].
Proof. unfold issued. simpl. apply drop_all. Qed.

(** *** Keyword accumulation *)

Lemma set_int_if_not_None_assign name b (kw : gmap string val) :
  set_int_if_not_None name b kw = set_if_not_None name (option_int b) kw.
Proof. by destruct b. Qed.

Lemma dom_assign_all (table : list (string * val)) kw :
  dom (foldl assign kw table) = dom kw ∪ supplied_names table.
Proof.
  revert kw. unfold supplied_names.
  induction table as [|[name v] table IH]; intros kw; simpl.
  - set_solver.
  - rewrite IH. unfold assign, set_if_not_None. simpl.
    rewrite filter_cons. simpl.
    destruct (is_not_None v); simpl.
    + rewrite dom_insert_L. set_solver.
    + done.
Qed.

Lemma lookup_assign_fresh (table : list (string * val)) kw name :
  name ∉ table.*1 → foldl assign kw table !! name = kw !! name.
Proof.
  revert kw. induction table as [|[n v] table IH]; intros kw Hn; simpl; [done|].
  rewrite fmap_cons, not_elem_of_cons in Hn. destruct Hn as [Hne Hn].
  rewrite IH by done. unfold assign, set_if_not_None. simpl in *.
  destruct (is_not_None v); [by rewrite lookup_insert_ne|done].
Qed.

Lemma lookup_assign_all (table : list (string * val)) kw name v :
  NoDup table.*1 → (name, v) ∈ table →
  foldl assign kw table !! name =
    if is_not_None v then Some v else kw !! name.
Proof.
  revert kw. induction table as [|[n x] table IH]; intros kw Hnd Hin.
  - by apply elem_of_nil in Hin.
  - rewrite fmap_cons, NoDup_cons in Hnd. destruct Hnd as [Hfresh Hnd].
    apply elem_of_cons in Hin as [Heq|Hin]; simpl in *.
    + injection Heq as -> ->. rewrite lookup_assign_fresh by done.
      unfold assign, set_if_not_None. simpl.
      destruct (is_not_None x); [by rewrite lookup_insert_eq|done].
    + rewrite IH by done. destruct (is_not_None v); [done|].
      unfold assign, set_if_not_None. simpl.
      assert (n ≠ name).
      { intros ->. apply Hfresh. apply list_elem_of_fmap. by exists (name, v). }
      destruct (is_not_None x); [by rewrite lookup_insert_ne|done].
Qed.

(** An operation that accumulates its keywords from a table with distinct
    names and issues one call forwards exactly the supplied parameters. *)
Lemma forwards_exactly_intro {A} (m : M float estate A) target pos table :
  NoDup table.*1 →
  (∀ w, issued m w = [MkCall target pos (foldl assign ∅ table)]) →
  forwards_exactly m target table.
Proof.
  intros Hnd Hm w. exists pos, (foldl assign ∅ table). split; [apply Hm|]. split.
  - rewrite dom_assign_all, dom_empty_L. set_solver.
  - intros name v Hin. by rewrite (lookup_assign_all _ _ _ _ Hnd Hin).
Qed.

(** *** Structured setters *)

(** C1.  Each structured setter ([set_physics_properties],
    [change_dynamics], [change_visual_shape], [change_constraint],
    [start_logging]) issues one engine call whose keyword arguments are
    exactly the engine-side names of the parameters that the caller
    supplied, each bound to the supplied value (through [int] for the two
    boolean flags); a parameter left at [None] is absent from the call,
    whatever subset is supplied. *)
Theorem setters_forward_exactly_the_supplied_parameters :
  (∀ time_step num_solver_iterations use_split_impulse
     split_impulse_penetration_threshold num_sub_steps collision_filter_mode
     contact_breaking_threshold max_num_cmd_per_1ms enable_file_caching
     restitution_velocity_threshold erp contact_erp friction_erp
     enable_cone_friction deterministic_overlapping_pairs
     solver_residual_threshold,
     forwards_exactly
       (set_physics_properties eng time_step num_solver_iterations
          use_split_impulse split_impulse_penetration_threshold num_sub_steps
          collision_filter_mode contact_breaking_threshold max_num_cmd_per_1ms
          enable_file_caching restitution_velocity_threshold erp contact_erp
          friction_erp enable_cone_friction deterministic_overlapping_pairs
          solver_residual_threshold)
       setPhysicsEngineParameter
       [("fixedTimeStep", time_step);
        ("numSolverIterations", num_solver_iterations);
        ("useSplitImpulse", use_split_impulse);
        ("splitImpulsePenetrationThreshold", split_impulse_penetration_threshold);
        ("numSubSteps", num_sub_steps);
        ("collisionFilterMode", collision_filter_mode);
        ("contactBreakingThreshold", contact_breaking_threshold);
        ("maxNumCmdPer1ms", max_num_cmd_per_1ms);
        ("enableFileCaching", enable_file_caching);
        ("restitutionVelocityThreshold", restitution_velocity_threshold);
        ("erp", erp);
        ("contactERP", contact_erp);
        ("frictionERP", friction_erp);
        ("enableConeFriction", option_int enable_cone_friction);
        ("deterministicOverlappingPairs",
         option_int deterministic_overlapping_pairs);
        ("solverResidualThreshold", solver_residual_threshold)])
  ∧ (∀ body_id link_id mass lateral_friction spinning_friction
       rolling_friction restitution linear_damping angular_damping
       contact_stiffness contact_damping friction_anchor
       local_inertia_diagonal joint_damping,
       forwards_exactly
         (change_dynamics eng body_id link_id mass lateral_friction
            spinning_friction rolling_friction restitution linear_damping
            angular_damping contact_stiffness contact_damping friction_anchor
            local_inertia_diagonal joint_damping)
         changeDynamics
         [("mass", mass);
          ("lateralFriction", lateral_friction);
          ("spinningFriction", spinning_friction);
          ("rollingFriction", rolling_friction);
          ("restitution", restitution);
          ("linearDamping", linear_damping);
          ("angularDamping", angular_damping);
          ("contactStiffness", contact_stiffness);
          ("contactDamping", contact_damping);
          ("frictionAnchor", friction_anchor);
          ("localInertiaDiagonal", local_inertia_diagonal);
          ("jointDamping", joint_damping)])
  ∧ (∀ object_id link_id shape_id texture_id rgba_color specular_color,
       forwards_exactly
         (change_visual_shape eng object_id link_id shape_id texture_id
            rgba_color specular_color)
         changeVisualShape
         [("shapeIndex", shape_id);
          ("textureUniqueId", texture_id);
          ("rgbaColor", rgba_color);
          ("specularColor", specular_color)])
  ∧ (∀ constraint_id child_joint_pivot child_frame_orientation max_force
       gear_ratio gear_auxiliary_link relative_position_target erp,
       forwards_exactly
         (change_constraint eng constraint_id child_joint_pivot
            child_frame_orientation max_force gear_ratio gear_auxiliary_link
            relative_position_target erp)
         changeConstraint
         [("jointChildPivot", child_joint_pivot);
          ("jointChildFrameOrientation", child_frame_orientation);
          ("maxForce", max_force);
          ("gearRatio", gear_ratio);
          ("gearAuxLink", gear_auxiliary_link);
          ("relativePositionTarget", relative_position_target);
          ("erp", erp)])
  ∧ (∀ logging_type filename object_unique_ids max_log_dof body_unique_id_A
       body_unique_id_B link_index_A link_index_B device_type_filter log_flags,
       forwards_exactly
         (start_logging eng logging_type filename object_unique_ids
            max_log_dof body_unique_id_A body_unique_id_B link_index_A
            link_index_B device_type_filter log_flags)
         startStateLogging
         [("objectUniqueIds", object_unique_ids);
          ("maxLogDof", max_log_dof);
          ("bodyUniqueIdA", body_unique_id_A);
          ("bodyUniqueIdB", body_unique_id_B);
          ("linkIndexA", link_index_A);
          ("linkIndexB", link_index_B);
          ("deviceTypeFilter", device_type_filter);
          ("logFlags", log_flags)]).
Proof.
  repeat split; intros; eapply forwards_exactly_intro;
    try (intros w; cbv beta delta [set_physics_properties change_dynamics
           change_visual_shape change_constraint start_logging] zeta;
         rewrite ?set_int_if_not_None_assign; apply issued_call_ret);
    simpl; apply NoDup_ListNoDup; repeat constructor; simpl; intuition discriminate.
Qed.

(** *** Logging and restoring *)

(** C8.  [start_logging] invokes the engine's [startStateLogging] once and
    returns [None]: when the engine answers with a logging id the id is
    dropped, and the only other outcome is the engine's own error. *)
Theorem start_logging_returns_None
    logging_type filename object_unique_ids max_log_dof body_unique_id_A
    body_unique_id_B link_index_A link_index_B device_type_filter log_flags w :
  let m := start_logging eng logging_type filename object_unique_ids
             max_log_dof body_unique_id_A body_unique_id_B link_index_A
             link_index_B device_type_filter log_flags in
  ∃ kw,
    issued m w = [MkCall startStateLogging [logging_type; filename] kw]
    ∧ outcome m w =
        match (eng startStateLogging [logging_type; filename] kw (est w)).1 with
        | inl msg => Raise (EngineError msg)
        | inr logging_id => Ok VNone
        end
    ∧ ∀ v, outcome m w = Ok v → v = VNone.
Proof.
  intros m. subst m. unfold start_logging. eexists. split; [apply issued_call_ret|].
  unfold outcome. rewrite run_bind, run_call.
  destruct (eng startStateLogging _ _ _).1; simpl; split; try done.
  by intros v [= <-].
Qed.

(** C9.  [load] called with a state that is neither an int nor a str
    returns normally without issuing any engine call: the world, and so
    the simulator state, is left as it was. *)
Theorem load_ignores_other_types (state : val) w :
  isinstance_int state = false →
  isinstance_str state = false →
  load eng state w = (Ok tt, w).
Proof. intros Hint Hstr. unfold load. by rewrite Hint, Hstr. Qed.

(** *** Orientations *)

(** C7.  The conversion of a scalar-first orientation (w, x, y, z) to the
    engine's scalar-last order, followed by the reverse conversion, gives
    back the four components; and [load_urdf] and [create_body] forward
    an [np.quaternion] argument to the engine reordered as (x, y, z, w). *)
Theorem quaternion_round_trip (qw qx qy qz : float) :
  quat_conv_convertTo (quat_conv_convertFrom qw qx qy qz) = Some (qw, qx, qy, qz)
  ∧ quat_conv_convertFrom qw qx qy qz = [qx; qy; qz; qw]
  ∧ (∀ filename position use_maximal_coordinates use_fixed_base flags scale w,
       ∃ position',
         issued (load_urdf eng filename position (VQuat qw qx qy qz)
                   use_maximal_coordinates use_fixed_base flags scale) w
         = [MkCall loadURDF
              [filename; position';
               VList [VFloat qx; VFloat qy; VFloat qz; VFloat qw];
               use_maximal_coordinates; int_of_bool use_fixed_base; flags; scale]
              ∅])
  ∧ (∀ visual_shape_id collision_shape_id mass position w,
       ∃ kw,
         issued (create_body eng visual_shape_id collision_shape_id mass
                   position (VQuat qw qx qy qz)) w
         = [MkCall createMultiBody [] kw]
         ∧ kw !! "baseOrientation"
           = Some (VList [VFloat qx; VFloat qy; VFloat qz; VFloat qw])).
Proof.
  repeat split.
  - intros. eexists. unfold load_urdf. simpl. apply (issued_call loadURDF).
  - intros. eexists. unfold create_body. simpl.
    split; [apply (issued_call createMultiBody)|]. by simplify_map_eq.
Qed.

(** *** Matrices *)

Lemma reshape_then_transpose (flat : list float) :
  length flat = 16%nat →
  ∃ a, nd_reshape (np_array flat) [4; 4]%nat = Some a
       ∧ matrix_convention flat (nd_T a).
Proof.
  intros Hlen.
  do 16 (destruct flat as [|? flat]; [discriminate Hlen|]).
  destruct flat; [|discriminate Hlen].
  eexists. split; [reflexivity|]. split; [reflexivity|]. split; [reflexivity|].
  intros i j Hi Hj.
  do 4 (destruct i as [|i]; [do 4 (destruct j as [|j]; [reflexivity|]); lia|]).
  lia.
Qed.

Lemma run_reshape_4_4 (flat : list float) (w : World float estate) :
  length flat = 16%nat →
  ∃ a, reshape_4_4 flat w = (Ok a, w) ∧ matrix_convention flat (nd_T a).
Proof.
  intros Hlen. destruct (reshape_then_transpose flat Hlen) as (a & Ha & Hconv).
  exists a. unfold reshape_4_4. by rewrite Ha.
Qed.

(** Running "one engine call, then [reshape(4, 4).T]". *)
Lemma outcome_matrix_call (m : method) a k w
    (post : returns float m → list float) x s' :
  eng m a k (est w) = (inr x, s') →
  length (post x) = 16%nat →
  ∃ mat,
    outcome (view ← call m a k; b ← reshape_4_4 (post view); ret (nd_T b)) w
      = Ok mat
    ∧ matrix_convention (post x) mat.
Proof.
  intros Heng Hlen. unfold outcome. rewrite run_bind, run_call, Heng. simpl.
  rewrite run_bind.
  destruct (run_reshape_4_4 (post x)
              {| est := s'; trace := trace w ++ [MkCall m a k] |} Hlen)
    as (b & -> & Hconv).
  by exists (nd_T b).
Qed.

(** C5.  Whenever the engine answers with a flat list of 16 numbers,
    [compute_view_matrix] returns a 4x4 array whose transpose is that list
    read row by row; [compute_view_matrix_from_ypr],
    [compute_projection_matrix], [compute_projection_matrix_fov] and the two
    matrices of [get_debug_visualizer] follow the same reshape-then-transpose
    convention. *)
Theorem matrices_follow_one_convention :
  (∀ eye_position target_position up_vector w flat s',
     eng computeViewMatrix []
         (<["eyePosition" := eye_position]>
          (<["targetPosition" := target_position]>
           {[ "upVector" := up_vector ]})) (est w) = (inr flat, s') →
     length flat = 16%nat →
     ∃ mat, outcome (compute_view_matrix eng eye_position target_position
                       up_vector) w = Ok mat
            ∧ matrix_convention flat mat)
  ∧ (∀ target_position distance yaw pitch roll up_axis_index w,
       ∃ kw, ∀ flat s',
         eng computeViewMatrixFromYawPitchRoll [] kw (est w) = (inr flat, s') →
         length flat = 16%nat →
         ∃ mat, outcome (compute_view_matrix_from_ypr np_rad2deg eng
                           target_position distance yaw pitch roll
                           up_axis_index) w = Ok mat
                ∧ matrix_convention flat mat)
  ∧ (∀ left right bottom top near far w flat s',
       eng computeProjectionMatrix [left; right; bottom; top; near; far] ∅
           (est w) = (inr flat, s') →
       length flat = 16%nat →
       ∃ mat, outcome (compute_projection_matrix eng left right bottom top
                         near far) w = Ok mat
              ∧ matrix_convention flat mat)
  ∧ (∀ fov aspect near far w flat s',
       eng computeProjectionMatrixFOV [fov; aspect; near; far] ∅ (est w)
       = (inr flat, s') →
       length flat = 16%nat →
       ∃ mat, outcome (compute_projection_matrix_fov eng fov aspect near far) w
              = Ok mat
              ∧ matrix_convention flat mat)
  ∧ (∀ w cam s',
       eng getDebugVisualizerCamera [] ∅ (est w) = (inr cam, s') →
       length (cam_viewMatrix cam) = 16%nat →
       length (cam_projectionMatrix cam) = 16%nat →
       ∃ dv, outcome (get_debug_visualizer np_deg2rad eng) w = Ok dv
             ∧ matrix_convention (cam_viewMatrix cam) (dv_view dv)
             ∧ matrix_convention (cam_projectionMatrix cam) (dv_proj dv)).
Proof.
  split; [|split; [|split; [|split]]].
  - intros * Heng Hlen.
    exact (outcome_matrix_call computeViewMatrix _ _ w id flat s' Heng Hlen).
  - intros. eexists. intros flat s' Heng Hlen.
    exact (outcome_matrix_call computeViewMatrixFromYawPitchRoll _ _ w id
             flat s' Heng Hlen).
  - intros * Heng Hlen.
    exact (outcome_matrix_call computeProjectionMatrix _ _ w id flat s' Heng Hlen).
  - intros * Heng Hlen.
    exact (outcome_matrix_call computeProjectionMatrixFOV _ _ w id flat s'
             Heng Hlen).
  - intros w cam s' Heng Hview Hproj.
    unfold outcome, get_debug_visualizer. rewrite run_bind, run_call, Heng. simpl.
    rewrite run_bind.
    destruct (run_reshape_4_4 (cam_viewMatrix cam)
                {| est := s';
                   trace := trace w ++ [MkCall getDebugVisualizerCamera [] ∅] |}
                Hview) as (a & -> & Ha).
    rewrite run_bind.
    destruct (run_reshape_4_4 (cam_projectionMatrix cam)
                {| est := s';
                   trace := trace w ++ [MkCall getDebugVisualizerCamera [] ∅] |}
                Hproj) as (b & -> & Hb).
    eexists. split; [reflexivity|]. by split.
Qed.

(** *** Angles *)

(** X20.  Three operations convert angles: [reset_debug_visualizer]
    forwards [rad2deg] of its yaw and pitch, [get_debug_visualizer] returns
    [deg2rad] of the engine's yaw and pitch, [compute_view_matrix_from_ypr]
    forwards [rad2deg] of yaw, pitch and roll.  Hence, on an engine that
    gives back the angles it was given, and for conversions that are
    inverse of each other up to the tolerance [close], a yaw or pitch
    written in radians is read back within tolerance of the value written;
    it is never the degrees-scaled value unless that value itself is within
    tolerance of the original. *)
Theorem angles_are_radians_at_the_boundary :
  (∀ distance yaw pitch target_position w,
     ∃ kw,
       issued (reset_debug_visualizer np_rad2deg eng distance yaw pitch
                 target_position) w
       = [MkCall resetDebugVisualizerCamera [] kw]
       ∧ kw !! "cameraYaw" = Some (VFloat (np_rad2deg yaw))
       ∧ kw !! "cameraPitch" = Some (VFloat (np_rad2deg pitch))
       ∧ kw !! "cameraDistance" = Some distance
       ∧ kw !! "cameraTargetPosition" = Some target_position)
  ∧ (∀ w cam s',
       eng getDebugVisualizerCamera [] ∅ (est w) = (inr cam, s') →
       length (cam_viewMatrix cam) = 16%nat →
       length (cam_projectionMatrix cam) = 16%nat →
       ∃ dv,
         outcome (get_debug_visualizer np_deg2rad eng) w = Ok dv
         ∧ dv_yaw dv = np_deg2rad (cam_yaw cam)
         ∧ dv_pitch dv = np_deg2rad (cam_pitch cam)
         ∧ dv_dist dv = cam_dist cam)
  ∧ (∀ target_position distance yaw pitch roll up_axis_index w,
       ∃ kw,
         issued (compute_view_matrix_from_ypr np_rad2deg eng target_position
                   distance yaw pitch roll up_axis_index) w
         = [MkCall computeViewMatrixFromYawPitchRoll [] kw]
         ∧ kw !! "yaw" = Some (VFloat (np_rad2deg yaw))
         ∧ kw !! "pitch" = Some (VFloat (np_rad2deg pitch))
         ∧ kw !! "roll" = Some (VFloat (np_rad2deg roll)))
  ∧ (∀ close : float → float → Prop,
       (∀ x, close (np_deg2rad (np_rad2deg x)) x) →
       camera_round_trips eng →
       ∀ distance yaw pitch target_position w,
         ∃ dv,
           outcome (reset_debug_visualizer np_rad2deg eng distance yaw pitch
                      target_position ;;
                    get_debug_visualizer np_deg2rad eng) w = Ok dv
           ∧ close (dv_yaw dv) yaw
           ∧ close (dv_pitch dv) pitch
           ∧ (¬ close (np_rad2deg yaw) yaw → dv_yaw dv ≠ np_rad2deg yaw)
           ∧ (¬ close (np_rad2deg pitch) pitch → dv_pitch dv ≠ np_rad2deg pitch)).
Proof.
  split; [|split; [|split]].
  - intros. eexists. unfold reset_debug_visualizer.
    split; [apply issued_call_ret|]. by simplify_map_eq.
  - intros w cam s' Heng Hview Hproj.
    unfold outcome, get_debug_visualizer. rewrite run_bind, run_call, Heng. simpl.
    rewrite run_bind.
    destruct (run_reshape_4_4 (cam_viewMatrix cam)
                {| est := s';
                   trace := trace w ++ [MkCall getDebugVisualizerCamera [] ∅] |}
                Hview) as (a & -> & _).
    rewrite run_bind.
    destruct (run_reshape_4_4 (cam_projectionMatrix cam)
                {| est := s';
                   trace := trace w ++ [MkCall getDebugVisualizerCamera [] ∅] |}
                Hproj) as (b & -> & _).
    eexists. by split.
  - intros. eexists. unfold compute_view_matrix_from_ypr, issued.
    split.
    + rewrite run_bind, run_call.
      destruct (eng computeViewMatrixFromYawPitchRoll _ _ _).1 as [msg|flat];
        simpl; [by rewrite drop_app_length|].
      rewrite run_bind. unfold reshape_4_4.
      destruct (nd_reshape _ _); simpl; by rewrite drop_app_length.
    + by simplify_map_eq.
  - intros close Hclose Hrt distance yaw pitch target_position w.
    unfold reset_debug_visualizer.
    set (kw := <["cameraDistance" := distance]> _).
    destruct (Hrt kw (est w) (np_rad2deg yaw) (np_rad2deg pitch))
      as (s' & cam & s'' & Hreset & Hget & Hyaw & Hpitch & Hview & Hproj);
      [by subst kw; simplify_map_eq..|].
    unfold outcome. rewrite !run_bind, run_call, Hreset. simpl.
    unfold get_debug_visualizer. rewrite run_bind, run_call. simpl.
    rewrite Hget. simpl. rewrite run_bind.
    destruct (run_reshape_4_4 (cam_viewMatrix cam)
                {| est := s'';
                   trace := (trace w ++ [MkCall resetDebugVisualizerCamera [] kw])
                            ++ [MkCall getDebugVisualizerCamera [] ∅] |}
                Hview) as (a & -> & _).
    rewrite run_bind.
    destruct (run_reshape_4_4 (cam_projectionMatrix cam)
                {| est := s'';
                   trace := (trace w ++ [MkCall resetDebugVisualizerCamera [] kw])
                            ++ [MkCall getDebugVisualizerCamera [] ∅] |}
                Hproj) as (b & -> & _).
    eexists. split; [reflexivity|]. simpl. rewrite Hyaw, Hpitch.
    repeat split; try apply Hclose.
    + intros Hfar Heq. apply Hfar. rewrite <- Heq. apply Hclose.
    + intros Hfar Heq. apply Hfar. rewrite <- Heq. apply Hclose.
Qed.

(** *** Local errors *)

Lemma recognized_kind_cases (shape_type : Z) :
  recognized_kind shape_type ↔
  shape_type = GEOM_SPHERE ∨ shape_type = GEOM_BOX ∨ shape_type = GEOM_CAPSULE
  ∨ shape_type = GEOM_CYLINDER ∨ shape_type = GEOM_PLANE
  ∨ shape_type = GEOM_MESH.
Proof. unfold recognized_kind. rewrite !elem_of_cons, elem_of_nil. tauto. Qed.

Lemma create_visual_shape_cases (shape_type : Z)
    radius half_extents length filename mesh_scale plane_normal flags
    rgba_color specular_color visual_frame_position vertices indices uvs
    normals visual_frame_orientation :
  let m := create_visual_shape eng shape_type radius half_extents length
             filename mesh_scale plane_normal flags rgba_color specular_color
             visual_frame_position vertices indices uvs normals
             visual_frame_orientation in
  (recognized_kind shape_type
   ∧ ∃ kw, m = call createVisualShape [VInt shape_type] kw)
  ∨ (¬ recognized_kind shape_type
     ∧ m = raise (ValueError "Unknown visual shape type.")).
Proof.
  intros m. subst m. unfold create_visual_shape.
  rewrite recognized_kind_cases.
  repeat case_bool_decide; simpl; eauto 10.
  right. split; [tauto|done].
Qed.

Lemma create_collision_shape_cases (shape_type : Z)
    radius half_extents height filename mesh_scale plane_normal flags
    collision_frame_position collision_frame_orientation :
  let m := create_collision_shape eng shape_type radius half_extents height
             filename mesh_scale plane_normal flags collision_frame_position
             collision_frame_orientation in
  (recognized_kind shape_type
   ∧ ∃ kw, m = call createCollisionShape [VInt shape_type] kw)
  ∨ (¬ recognized_kind shape_type
     ∧ m = raise (ValueError "Unknown collision shape type.")).
Proof.
  intros m. subst m. unfold create_collision_shape.
  rewrite recognized_kind_cases.
  repeat case_bool_decide; simpl; eauto 10.
  right. split; [tauto|done].
Qed.

(** A call changes the world: it is not a local error. *)
Lemma call_not_local (m : method) a k w : ¬ raises_locally (call m a k) w.
Proof.
  intros [e He]. rewrite run_call in He.
  injection He as _ Htrace. destruct w as [s t]. simpl in *.
  injection Htrace as _ Ht. apply (f_equal length) in Ht.
  rewrite length_app in Ht. simpl in Ht. lia.
Qed.

(** The outcome of a shape-creation operation, from its case analysis. *)
Ltac shape_creation_outcome target Hcases :=
  destruct Hcases as [[Hrec (kw & Hm)]|[Hnot Hm]]; rewrite Hm;
  [ split; [split; [intros Hloc; by destruct (call_not_local target _ _ _ Hloc)|done]|];
    split; [done|]; intros _; exists kw; split; [done|apply (issued_call target)]
  | split; [split; [done|]; intros _; by eexists|]; by split ].

(** C6, as amended.  [create_visual_shape] and [create_collision_shape]
    raise a local [ValueError], before any engine call, exactly when the
    shape type is none of the recognised kinds; for a recognised kind they
    are one engine call, whose answer or error is the outcome.  This is not
    the adapter's only validation: [set_joint_accelerations] raises a local
    [ValueError] when the accelerations and the joints differ in number. *)
Theorem shape_creation_rejects_unknown_kinds :
  (∀ shape_type radius half_extents length filename mesh_scale plane_normal
     flags rgba_color specular_color visual_frame_position vertices indices
     uvs normals visual_frame_orientation w,
     let m := create_visual_shape eng shape_type radius half_extents length
                filename mesh_scale plane_normal flags rgba_color
                specular_color visual_frame_position vertices indices uvs
                normals visual_frame_orientation in
     (raises_locally m w ↔ ¬ recognized_kind shape_type)
     ∧ (¬ recognized_kind shape_type →
        m w = (Raise (Local (ValueError "Unknown visual shape type.")), w))
     ∧ (recognized_kind shape_type →
        ∃ kw, m = call createVisualShape [VInt shape_type] kw
              ∧ issued m w = [MkCall createVisualShape [VInt shape_type] kw]))
  ∧ (∀ shape_type radius half_extents height filename mesh_scale plane_normal
       flags collision_frame_position collision_frame_orientation w,
       let m := create_collision_shape eng shape_type radius half_extents
                  height filename mesh_scale plane_normal flags
                  collision_frame_position collision_frame_orientation in
       (raises_locally m w ↔ ¬ recognized_kind shape_type)
       ∧ (¬ recognized_kind shape_type →
          m w = (Raise (Local (ValueError "Unknown collision shape type.")), w))
       ∧ (recognized_kind shape_type →
          ∃ kw, m = call createCollisionShape [VInt shape_type] kw
                ∧ issued m w
                  = [MkCall createCollisionShape [VInt shape_type] kw]))
  ∧ (∀ body_id joint_ids (accelerations : list float) q dq w,
       length accelerations ≠ length (id_list joint_ids) →
       raises_locally
         (set_joint_accelerations eng body_id joint_ids (NList accelerations)
            q dq) w).
Proof.
  split; [|split].
  - intros shape_type radius half_extents len filename mesh_scale plane_normal
      flags rgba_color specular_color visual_frame_position vertices idx uvs
      normals visual_frame_orientation w m. subst m.
    pose proof (create_visual_shape_cases shape_type radius half_extents len
                  filename mesh_scale plane_normal flags rgba_color
                  specular_color visual_frame_position vertices idx uvs
                  normals visual_frame_orientation) as Hcases.
    simpl in Hcases. shape_creation_outcome createVisualShape Hcases.
  - intros. subst m.
    pose proof (create_collision_shape_cases shape_type radius half_extents
                  height filename mesh_scale plane_normal flags
                  collision_frame_position collision_frame_orientation)
      as Hcases.
    simpl in Hcases. shape_creation_outcome createCollisionShape Hcases.
  - intros body_id joint_ids accelerations q dq w Hlen.
    unfold raises_locally, set_joint_accelerations.
    destruct joint_ids; simpl in *; eexists; rewrite run_bind; unfold len; simpl;
      (rewrite bool_decide_eq_true_2; [reflexivity|assumption]).
Qed.

(** *** Number of engine calls *)

Lemma issued_call_then {B} (m : method) a k
    (f : returns float m → M float estate B) w :
  quiet f → issued (call m a k ≫= f) w = [MkCall m a k].
Proof.
  intros Hf. unfold issued. rewrite run_bind, run_call.
  destruct (eng m a k (est w)).1 as [msg|x]; simpl.
  - by rewrite drop_app_length.
  - rewrite Hf. simpl. by rewrite drop_app_length.
Qed.

Lemma quiet_ret {A B} (g : A → B) :
  quiet (float := float) (estate := estate) (λ x, ret (g x)).
Proof. by intros x w. Qed.

Lemma quiet_lift {A B} (g : A → option B) e :
  quiet (float := float) (estate := estate) (λ x, lift (g x) e).
Proof. intros x w. unfold lift. by destruct (g x). Qed.

Lemma quiet_reshape_T {A} (g : A → list float) :
  quiet (float := float) (estate := estate)
        (λ x, b ← reshape_4_4 (g x); ret (nd_T b)).
Proof.
  intros x w. rewrite run_bind. unfold reshape_4_4, lift.
  by destruct (nd_reshape _ _).
Qed.

Ltac quiet_by_cases :=
  first
    [ apply quiet_ret
    | apply quiet_reshape_T
    | let x := fresh "x" in
      let w' := fresh "w" in
      intros x w'; try destruct x as [? ?]; reflexivity ].

Ltac calls_once_by_unfolding :=
  let w := fresh "w" in
  intros w;
  lazymatch goal with
  | |- ∃ a k, issued (sim _ ?m ?a0 ?k0) _ = _ =>
      exists a0, k0; apply (issued_call m)
  | |- ∃ a k, issued (sim _ ?m ?a0 ?k0 ≫= ?f) _ = _ =>
      exists a0, k0; apply (issued_call_then m a0 k0 f); quiet_by_cases
  end.

Lemma get_base_pose_once body_id :
  calls_once (get_base_pose eng body_id) getBasePositionAndOrientation.
Proof. unfold get_base_pose. calls_once_by_unfolding. Qed.

Lemma get_base_velocity_once body_id :
  calls_once (get_base_velocity eng body_id) getBaseVelocity.
Proof. unfold get_base_velocity. calls_once_by_unfolding. Qed.

(** A derived accessor that only projects the result of [m]. *)
Lemma calls_once_projection {A B} (m : M float estate A) (g : A → B) target :
  calls_once m target → calls_once (x ← m; ret (g x)) target.
Proof.
  intros Hm w. destruct (Hm w) as (a & k & Hw). exists a, k.
  unfold issued in *. rewrite run_bind.
  by destruct (m w) as [[x|e] w'].
Qed.

(** C2, as amended.  The number of engine calls of an operation is fixed
    by the operation: the forwarding operations listed here issue exactly
    one call, on the engine method they wrap; [reset_base_position] and
    [reset_base_orientation] issue two, the query of the base pose and then
    the reset (which is issued when the query answered);
    [reset_base_velocity] without any velocity issues none. *)
Theorem engine_calls_per_operation :
  calls_once (reset eng) resetSimulation
  ∧ (∀ time_step, calls_once (set_time_step eng time_step) setTimeStep)
  ∧ (∀ flag, calls_once (set_real_time eng flag) setRealTimeSimulation)
  ∧ calls_once (pause eng) setRealTimeSimulation
  ∧ calls_once (unpause eng) setRealTimeSimulation
  ∧ calls_once (get_physics_properties eng) getPhysicsEngineParameters
  ∧ (∀ logger_id, calls_once (stop_logging eng logger_id) stopStateLogging)
  ∧ (∀ state, isinstance_int state || isinstance_str state = true →
              calls_once (load eng state) restoreState)
  ∧ (∀ filename position orientation use_maximal_coordinates use_fixed_base
       flags scale,
       calls_once (load_urdf eng filename position orientation
                     use_maximal_coordinates use_fixed_base flags scale)
                  loadURDF)
  ∧ (∀ visual_shape_id collision_shape_id mass position orientation,
       calls_once (create_body eng visual_shape_id collision_shape_id mass
                     position orientation) createMultiBody)
  ∧ (∀ body_id, calls_once (remove_body eng body_id) removeBody)
  ∧ calls_once (num_bodies eng) getNumBodies
  ∧ (∀ constraint_id,
       calls_once (remove_constraint eng constraint_id) removeConstraint)
  ∧ (∀ body_id,
       calls_once (get_base_pose eng body_id) getBasePositionAndOrientation
       ∧ calls_once (get_base_position eng body_id)
                    getBasePositionAndOrientation
       ∧ calls_once (get_base_orientation eng body_id)
                    getBasePositionAndOrientation
       ∧ calls_once (get_base_velocity eng body_id) getBaseVelocity
       ∧ calls_once (get_base_linear_velocity eng body_id) getBaseVelocity
       ∧ calls_once (get_base_angular_velocity eng body_id) getBaseVelocity
       ∧ calls_once (num_joints eng body_id) getNumJoints
       ∧ calls_once (num_links eng body_id) getNumJoints)
  ∧ (∀ body_id position orientation,
       calls_once (reset_base_pose eng body_id position orientation)
                  resetBasePositionAndOrientation)
  ∧ (∀ body_id joint_id,
       calls_once (get_joint_info eng body_id joint_id) getJointInfo
       ∧ calls_once (get_joint_positions eng body_id (One joint_id))
                    getJointState
       ∧ calls_once (get_joint_velocities eng body_id (One joint_id))
                    getJointState)
  ∧ (∀ body_id joint_ids,
       calls_once (get_joint_positions eng body_id (Many joint_ids))
                  getJointStates
       ∧ calls_once (get_joint_velocities eng body_id (Many joint_ids))
                    getJointStates)
  ∧ (∀ body_id q dq des_ddq,
       calls_once (calculate_inverse_dynamics eng body_id q dq des_ddq)
                  calculateInverseDynamics)
  ∧ (∀ eye_position target_position up_vector,
       calls_once (compute_view_matrix eng eye_position target_position
                     up_vector) computeViewMatrix)
  ∧ (∀ target_position distance yaw pitch roll up_axis_index,
       calls_once (compute_view_matrix_from_ypr np_rad2deg eng target_position
                     distance yaw pitch roll up_axis_index)
                  computeViewMatrixFromYawPitchRoll)
  ∧ (∀ left right bottom top near far,
       calls_once (compute_projection_matrix eng left right bottom top near far)
                  computeProjectionMatrix)
  ∧ (∀ fov aspect near far,
       calls_once (compute_projection_matrix_fov eng fov aspect near far)
                  computeProjectionMatrixFOV)
  ∧ calls_once (get_debug_visualizer np_deg2rad eng) getDebugVisualizerCamera
  ∧ (∀ distance yaw pitch target_position,
       calls_once (reset_debug_visualizer np_rad2deg eng distance yaw pitch
                     target_position) resetDebugVisualizerCamera)
  ∧ (∀ body_id position w,
       issued (reset_base_position eng body_id position) w
       = pose_then_reset eng body_id w
           (λ pose, [VInt body_id; position;
                     array_value (np_array (quat_list pose.2))]))
  ∧ (∀ body_id orientation w,
       issued (reset_base_orientation eng body_id orientation) w
       = pose_then_reset eng body_id w
           (λ pose, [VInt body_id; array_value (np_array (vec3_list pose.1));
                     orientation]))
  ∧ (∀ body_id w, issued (reset_base_velocity eng body_id VNone VNone) w = []).
Proof.
  repeat lazymatch goal with |- _ ∧ _ => split end.
  all: try (intros; repeat lazymatch goal with |- _ ∧ _ => split end).
  all: try by (unfold reset, set_time_step, set_real_time, pause, unpause,
                 set_real_time, get_physics_properties, stop_logging, load_urdf,
                 create_body, remove_body, num_bodies, remove_constraint,
                 reset_base_pose, num_links, num_joints, get_joint_info,
                 get_joint_positions, get_joint_velocities,
                 calculate_inverse_dynamics, compute_view_matrix,
                 compute_view_matrix_from_ypr, compute_projection_matrix,
                 compute_projection_matrix_fov, reset_debug_visualizer;
               calls_once_by_unfolding).
  all: try by (first [apply get_base_pose_once | apply get_base_velocity_once]).
  all: try by (apply calls_once_projection;
               first [apply get_base_pose_once | apply get_base_velocity_once]).
  - unfold load. destruct (isinstance_int state); [calls_once_by_unfolding|].
    destruct (isinstance_str state); [calls_once_by_unfolding|done].
  - unfold get_debug_visualizer. intros w. eexists _, _.
    apply (issued_call_then getDebugVisualizerCamera). intros cam w'.
    rewrite run_bind.
    unfold reshape_4_4, lift. destruct (nd_reshape _ _); simpl; [|done].
    rewrite run_bind. by destruct (nd_reshape _ _).
  - unfold issued, pose_then_reset, reset_base_position, get_base_orientation,
      get_base_pose, reset_base_pose.
    rewrite !run_bind, run_call.
    destruct (eng getBasePositionAndOrientation _ _ _).1 as [msg|[pos orn]];
      simpl; [by rewrite drop_app_length|].
    rewrite run_bind, run_call.
    destruct (eng resetBasePositionAndOrientation _ _ _).1; simpl;
      by rewrite <- app_assoc, drop_app_length.
  - unfold issued, pose_then_reset, reset_base_orientation, get_base_position,
      get_base_pose, reset_base_pose.
    rewrite !run_bind, run_call.
    destruct (eng getBasePositionAndOrientation _ _ _).1 as [msg|[pos orn]];
      simpl; [by rewrite drop_app_length|].
    rewrite run_bind, run_call.
    destruct (eng resetBasePositionAndOrientation _ _ _).1; simpl;
      by rewrite <- app_assoc, drop_app_length.
  - apply issued_ret.
Qed.

(** *** Batch accessors *)

#[local] Arguments mbind : simpl never.

Lemma run_as_num (m : M float estate (ndarray float)) w :
  as_num m w = match m w with
               | (Ok a, w') => (Ok (NArray a), w')
               | (Raise e, w') => (Raise e, w')
               end.
Proof. unfold as_num. rewrite run_bind. by destruct (m w) as [[a|e] w']. Qed.

(** A loop that appends one result per element is a list comprehension. *)
Lemma for_each_append {A B} (g : A → M float estate B)
    (body : list B → A → M float estate (list B)) :
  (∀ acc x w, body acc x w = (y ← g x; ret (acc ++ [y])) w) →
  ∀ l acc w,
    for_each l acc body w = (ys ← list_comprehension g l; ret (acc ++ ys)) w.
Proof.
  intros Hbody l. induction l as [|x l IH]; intros acc w; simpl.
  - rewrite run_bind, !run_ret. by rewrite app_nil_r.
  - rewrite !run_bind, Hbody, !run_bind.
    destruct (g x w) as [[y|e] w1]; [|done].
    rewrite run_ret, IH, !run_bind.
    destruct (list_comprehension g l w1) as [[ys|e] w2]; [|done].
    rewrite !run_ret. by rewrite <- app_assoc.
Qed.

Lemma list_comprehension_as_num (g : Z → M float estate (ndarray float)) l w :
  list_comprehension (λ i, as_num (g i)) l w
  = (rows ← list_comprehension g l; ret (NArray <$> rows)) w.
Proof.
  revert w. induction l as [|x l IH]; intros w; simpl; [done|].
  rewrite !run_bind, run_as_num.
  destruct (g x w) as [[y|e] w1]; [|done].
  rewrite !run_bind, IH, !run_bind.
  by destruct (list_comprehension g l w1) as [[ys|e] w2].
Qed.

Lemma np_array_of_arrays (rows : list (ndarray float)) :
  np_array_of (NArray <$> rows) = NArray <$> np_stack rows.
Proof.
  destruct rows as [|r rows]; [done|].
  unfold np_array_of.
  assert (mapM row_of (NArray <$> (r :: rows)) = Some (r :: rows)) as Hrows.
  { generalize (r :: rows). intros l. induction l as [|r' l IH]; [done|].
    rewrite fmap_cons. simpl. by rewrite IH. }
  by rewrite Hrows.
Qed.

(** An accessor written as "loop, append, [np.array]" answers a list with
    one value per identifier, in the order of the list. *)
Lemma loop_is_one_per_identifier (g : Z → M float estate (ndarray float))
    (body : list (ndarray float) → Z → M float estate (list (ndarray float)))
    l w :
  (∀ acc x w, body acc x w = (y ← g x; ret (acc ++ [y])) w) →
  as_num (rows ← for_each l [] body; np_array_rows rows) w
  = one_per_identifier (λ i, as_num (g i)) l w.
Proof.
  intros Hbody. unfold one_per_identifier.
  rewrite run_as_num, !run_bind, (for_each_append g body Hbody).
  rewrite list_comprehension_as_num, !run_bind.
  destruct (list_comprehension g l w) as [[rows|e] w1]; [|done].
  rewrite !run_ret. unfold np_array_rows. rewrite np_array_of_arrays.
  simpl. by destruct (np_stack rows).
Qed.



(** The three link accessors have the shape "loop, append, [np.array]"
    over their own single-identifier branch. *)
Ltac link_loop_body :=
  let acc := fresh "acc" in
  let x := fresh "x" in
  let w := fresh "w" in
  intros acc x w; simpl; case_bool_decide;
  rewrite ?run_bind;
  repeat match goal with
         | |- context [sim ?e ?m ?a ?k ?w] =>
             destruct (sim e m a k w) as [[? | ?] ?]; [|done]
         | |- context [get_base_velocity ?e ?b ?w] =>
             destruct (get_base_velocity e b w) as [[[? ?] | ?] ?]; [|done]
         end;
  rewrite ?run_bind; unfold link_velocity_entry, link_velocity_pair, lift;
  repeat match goal with
         | |- context [match ?o with Some _ => _ | None => _ end] => destruct o
         end;
  rewrite ?run_bind; done.

Lemma link_positions_batch body_id l w :
  as_num (get_link_world_positions eng body_id (Many l)) w
  = one_per_identifier
      (λ i, as_num (get_link_world_positions eng body_id (One i))) l w.
Proof.
  apply (loop_is_one_per_identifier
           (λ i, get_link_world_positions eng body_id (One i))).
  link_loop_body.
Qed.

Lemma link_orientations_batch body_id l w :
  as_num (get_link_world_orientations eng body_id (Many l)) w
  = one_per_identifier
      (λ i, as_num (get_link_world_orientations eng body_id (One i))) l w.
Proof.
  apply (loop_is_one_per_identifier
           (λ i, get_link_world_orientations eng body_id (One i))).
  link_loop_body.
Qed.

Lemma link_velocities_batch body_id l w :
  as_num (get_link_world_linear_velocities eng body_id (Many l)) w
  = one_per_identifier
      (λ i, as_num (get_link_world_linear_velocities eng body_id (One i))) l w.
Proof.
  apply (loop_is_one_per_identifier
           (λ i, get_link_world_linear_velocities eng body_id (One i))).
  link_loop_body.
Qed.

















Lemma list_comprehension_length {A B} (g : A → M float estate B) l w ys w' :
  list_comprehension g l w = (Ok ys, w') → length ys = length l.
Proof.
  revert w ys w'. induction l as [|x l IH]; intros w ys w'; simpl.
  - by intros [= <- _].
  - rewrite !run_bind. destruct (g x w) as [[y|e] w1]; [|done].
    rewrite run_bind.
    destruct (list_comprehension g l w1) as [[ys'|e] w2] eqn:Hl; [|done].
    rewrite run_ret. intros [= <- _]. simpl. f_equal. by eapply IH.
Qed.



(** *** The base as link -1 *)

Lemma all_calls_ret {A} (P : Call float → Prop) (a : A) :
  all_calls (estate := estate) P (ret a).
Proof. intros w. exists []. by rewrite app_nil_r. Qed.

Lemma all_calls_raise {A} (P : Call float → Prop) e :
  all_calls (estate := estate) P (raise (A := A) e).
Proof. intros w. exists []. by rewrite app_nil_r. Qed.

Lemma all_calls_lift {A} (P : Call float → Prop) (o : option A) e :
  all_calls (estate := estate) P (lift o e).
Proof. destruct o; [apply all_calls_ret|apply all_calls_raise]. Qed.

Lemma all_calls_call (P : Call float → Prop) m a k :
  P (MkCall m a k) → all_calls P (call m a k).
Proof.
  intros HP w. exists [MkCall m a k]. rewrite run_call. split; [done|].
  by constructor.
Qed.

Lemma all_calls_bind {A B} P (m : M float estate A) (f : A → M float estate B) :
  all_calls P m → (∀ x, all_calls P (f x)) → all_calls P (m ≫= f).
Proof.
  intros Hm Hf w. rewrite run_bind. destruct (Hm w) as (cs & Htr & Hcs).
  destruct (m w) as [[x|e] w1]; simpl in *.
  - destruct (Hf x w1) as (cs' & Htr' & Hcs'). exists (cs ++ cs').
    rewrite Htr', Htr, app_assoc. split; [done|]. by apply Forall_app.
  - by exists cs.
Qed.

Lemma all_calls_for_each {A B} P (l : list A) (acc : B)
    (body : B → A → M float estate B) :
  (∀ acc x, all_calls P (body acc x)) → all_calls P (for_each l acc body).
Proof.
  intros Hbody. revert acc. induction l as [|x l IH]; intros acc; simpl.
  - apply all_calls_ret.
  - apply all_calls_bind; [apply Hbody|apply IH].
Qed.

Lemma issued_all_calls {A} P (m : M float estate A) w :
  all_calls P m → Forall P (issued m w).
Proof.
  intros Hm. destruct (Hm w) as (cs & Htr & Hcs). unfold issued.
  by rewrite Htr, drop_app_length.
Qed.

Ltac all_calls_by_structure :=
  repeat first
    [ apply all_calls_ret
    | apply all_calls_raise
    | apply all_calls_lift
    | apply all_calls_for_each; intros ? ?
    | apply all_calls_bind; [|intros ?]
    | case_bool_decide
    | match goal with
      | |- all_calls _ (let '(_, _) := ?x in _) => destruct x
      | |- all_calls _ (sim _ ?m ?a ?k) =>
          apply (all_calls_call _ m a k);
          unfold not_a_link_query_on_the_base; simpl;
          first [ discriminate | intros _ [= ?]; congruence ]
      end ].

Lemma link_positions_calls body_id link_ids :
  all_calls not_a_link_query_on_the_base
            (get_link_world_positions eng body_id link_ids).
Proof.
  unfold get_link_world_positions, get_base_position, get_base_pose,
    np_array_rows.
  destruct link_ids; all_calls_by_structure.
Qed.

Lemma link_orientations_calls body_id link_ids :
  all_calls not_a_link_query_on_the_base
            (get_link_world_orientations eng body_id link_ids).
Proof.
  unfold get_link_world_orientations, get_base_orientation, get_base_pose,
    np_array_rows.
  destruct link_ids; all_calls_by_structure.
Qed.

Lemma link_velocities_calls body_id link_ids :
  all_calls not_a_link_query_on_the_base
            (get_link_world_linear_velocities eng body_id link_ids).
Proof.
  unfold get_link_world_linear_velocities, get_base_linear_velocity,
    get_base_velocity, np_array_rows, link_velocity_entry.
  destruct link_ids; all_calls_by_structure.
Qed.

(** C10.  The link accessors [get_link_world_positions],
    [get_link_world_orientations] and [get_link_world_linear_velocities]
    answer the link identifier -1 with the base of the body: the value is
    the base position, orientation or linear velocity, read by the one
    base-state engine call; a list is answered identifier by identifier in
    the same way; and whatever the identifiers, no [getLinkState] call is
    issued on link -1. *)
Theorem link_minus_one_is_the_base :
  (∀ body_id w,
     get_link_world_positions eng body_id (One (-1)) w
     = get_base_position eng body_id w
     ∧ get_link_world_orientations eng body_id (One (-1)) w
       = get_base_orientation eng body_id w
     ∧ get_link_world_linear_velocities eng body_id (One (-1)) w
       = get_base_linear_velocity eng body_id w)
  ∧ (∀ body_id w,
       issued (get_base_position eng body_id) w
       = [MkCall getBasePositionAndOrientation [VInt body_id] ∅]
       ∧ outcome (get_base_position eng body_id) w
         = match (eng getBasePositionAndOrientation [VInt body_id] ∅ (est w)).1
           with
           | inl msg => Raise (EngineError msg)
           | inr pose => Ok (np_array (vec3_list pose.1))
           end
       ∧ issued (get_base_orientation eng body_id) w
         = [MkCall getBasePositionAndOrientation [VInt body_id] ∅]
       ∧ outcome (get_base_orientation eng body_id) w
         = match (eng getBasePositionAndOrientation [VInt body_id] ∅ (est w)).1
           with
           | inl msg => Raise (EngineError msg)
           | inr pose => Ok (np_array (quat_list pose.2))
           end
       ∧ issued (get_base_linear_velocity eng body_id) w
         = [MkCall getBaseVelocity [VInt body_id] ∅]
       ∧ outcome (get_base_linear_velocity eng body_id) w
         = match (eng getBaseVelocity [VInt body_id] ∅ (est w)).1 with
           | inl msg => Raise (EngineError msg)
           | inr vel => Ok (np_array (vec3_list vel.1))
           end)
  ∧ (∀ body_id l w,
       as_num (get_link_world_positions eng body_id (Many l)) w
       = one_per_identifier
           (λ i, as_num (get_link_world_positions eng body_id (One i))) l w
       ∧ as_num (get_link_world_orientations eng body_id (Many l)) w
         = one_per_identifier
             (λ i, as_num (get_link_world_orientations eng body_id (One i))) l w
       ∧ as_num (get_link_world_linear_velocities eng body_id (Many l)) w
         = one_per_identifier
             (λ i, as_num (get_link_world_linear_velocities eng body_id (One i)))
             l w)
  ∧ (∀ body_id link_ids w,
       Forall not_a_link_query_on_the_base
              (issued (get_link_world_positions eng body_id link_ids) w)
       ∧ Forall not_a_link_query_on_the_base
                (issued (get_link_world_orientations eng body_id link_ids) w)
       ∧ Forall not_a_link_query_on_the_base
                (issued (get_link_world_linear_velocities eng body_id link_ids)
                        w)).
Proof.
  split; [|split; [|split]].
  - done.
  - intros body_id w.
    unfold get_base_position, get_base_orientation, get_base_linear_velocity,
      get_base_pose, get_base_velocity, issued, outcome.
    rewrite !run_bind, !run_call.
    destruct (eng getBasePositionAndOrientation _ _ _).1 as [msg|[pos orn]];
      destruct (eng getBaseVelocity _ _ _).1 as [msg'|[lin ang]];
      simpl; by rewrite !drop_app_length.
  - intros body_id l w. repeat split.
    + apply link_positions_batch.
    + apply link_orientations_batch.
    + apply link_velocities_batch.
  - intros body_id link_ids w. repeat split; apply issued_all_calls.
    + apply link_positions_calls.
    + apply link_orientations_calls.
    + apply link_velocities_calls.
Qed.

End Properties.

(** ** The adapter on the reference engine *)




Lemma toy_engine_camera_round_trips : camera_round_trips toy_engine.
Proof.
  intros kw s yaw pitch Hyaw Hpitch. eexists _, _, _.
  split; [reflexivity|]. split; [reflexivity|]. simpl.
  unfold toy_float_kwarg. by rewrite Hyaw, Hpitch.
Qed.

Lemma toy_conversions_inverse (x : Q) : (toy_deg2rad (toy_rad2deg x) == x)%Q.
Proof. unfold toy_deg2rad, toy_rad2deg. field. Qed.


(** A float is neither an int nor a str: [load] does nothing with it. *)
Lemma load_ignores_other_types_witness :
  isinstance_int (VFloat (1 # 2)) = false
  ∧ isinstance_str (VFloat (1 # 2)) = false
  ∧ load toy_engine (VFloat (1 # 2)) toy_world = (Ok tt, toy_world).
Proof.
  split; [reflexivity|]. split; [reflexivity|].
  apply (load_ignores_other_types toy_engine); reflexivity.
Defined.

(** The view matrix of the reference engine, whose flat list is
    0, 1, ..., 15. *)
Lemma matrices_follow_one_convention_witness :
  length toy_flat_matrix = 16%nat
  ∧ ∃ mat,
      outcome (compute_view_matrix toy_engine VNone VNone VNone) toy_world
      = Ok mat
      ∧ matrix_convention toy_flat_matrix mat.
Proof.
  split; [reflexivity|].
  apply (proj1 (matrices_follow_one_convention toy_rad2deg toy_deg2rad
                  toy_engine) VNone VNone VNone toy_world toy_flat_matrix
               (est toy_world));
    reflexivity.
Defined.

(** A yaw of 1/2 radian and a pitch of 1/3 radian are read back from the
    reference engine. *)
Lemma angles_are_radians_at_the_boundary_witness :
  (∀ x, (toy_deg2rad (toy_rad2deg x) == x)%Q)
  ∧ camera_round_trips toy_engine
  ∧ ∃ dv,
      outcome (reset_debug_visualizer toy_rad2deg toy_engine VNone (1 # 2)
                 (1 # 3) VNone ;;
               get_debug_visualizer toy_deg2rad toy_engine) toy_world = Ok dv
      ∧ (dv_yaw dv == 1 # 2)%Q
      ∧ (dv_pitch dv == 1 # 3)%Q.
Proof.
  split; [apply toy_conversions_inverse|].
  split; [apply toy_engine_camera_round_trips|].
  destruct (proj2 (proj2 (proj2 (angles_are_radians_at_the_boundary
                                   toy_rad2deg toy_deg2rad toy_engine)))
              Qeq toy_conversions_inverse toy_engine_camera_round_trips
              VNone (1 # 2)%Q (1 # 3)%Q VNone toy_world)
    as (dv & Hdv & Hyaw & Hpitch & _).
  exists dv. split; [exact Hdv|]. split; [exact Hyaw|exact Hpitch].
Defined.

(** [reset_base_position] issues two engine calls, not one. *)
Lemma reset_base_position_issues_two_calls :
  issued (reset_base_position toy_engine 0 (VList [])) toy_world
  = [MkCall getBasePositionAndOrientation [VInt 0] ∅;
     MkCall resetBasePositionAndOrientation
            [VInt 0; VList []; VArray [4%nat] [0; 0; 0; 1]%Q] ∅]
  ∧ ¬ ∃ c, issued (reset_base_position toy_engine 0 (VList [])) toy_world = [c].
Proof.
  assert (issued (reset_base_position toy_engine 0 (VList [])) toy_world
          = [MkCall getBasePositionAndOrientation [VInt 0] ∅;
             MkCall resetBasePositionAndOrientation
                    [VInt 0; VList []; VArray [4%nat] [0; 0; 0; 1]%Q] ∅])
    as Hcalls by reflexivity.
  split; [exact Hcalls|]. intros [c Hc]. rewrite Hcalls in Hc. discriminate Hc.
Qed.

(** [set_joint_velocities] on a single joint and without a maximal force
    runs through all four calls. *)
Lemma set_joint_velocities_falls_through :
  meth <$> issued (set_joint_velocities toy_engine 0 (One 1) (VFloat 1%Q) VNone)
                  toy_world
  = [setJointMotorControl2; setJointMotorControl2;
     setJointMotorControlArray; setJointMotorControlArray].
Proof. reflexivity. Qed.

(** [set_joint_accelerations] validates its arguments: two accelerations
    for one joint are rejected by the adapter itself, before any engine
    call. *)
Lemma set_joint_accelerations_validates_sizes :
  set_joint_accelerations toy_engine 0 (One 0) (NList [1; 2]%Q) None None
    toy_world
  = (Raise (Local (ValueError
       "Expecting the desired accelerations to be of the same size as the number of joints; 2 != 1")),
     toy_world)
  ∧ raises_locally
      (set_joint_accelerations toy_engine 0 (One 0) (NList [1; 2]%Q) None None)
      toy_world.
Proof. split; [reflexivity|]. eexists. reflexivity. Qed.

(** ** Further properties of the adapter *)

Section FurtherProperties.

Context {float estate : Type}.
Variable eng : Engine float estate.

Local Abbreviation val := (value float).
Local Abbreviation call := (sim eng).

(** The client methods that are not in [method]. *)
Variable executePluginCommand :
  list val → gmap string val → M float estate unit.
Variable getContactPoints :
  list val → gmap string val → M float estate (list (ContactPoint float)).
Variable getCameraImage :
  list val → gmap string val → M float estate (CameraImage float).
Variable calculateInverseKinematics :
  list val → gmap string val → M float estate (list float).

(** *** Command sequences *)

Lemma commands_ret {A} (a : A) : commands eng (ret a) [] a.
Proof. intros w. split; [symmetry; apply app_nil_r|reflexivity]. Qed.

Lemma commands_call_then {A} (m : method) a k (rest : M float estate A) cs x :
  commands eng rest cs x →
  commands eng (call m a k ;; rest) (MkCall m a k :: cs) x.
Proof.
  intros Hrest w. unfold outcome. rewrite run_bind, run_call. simpl.
  unfold engine_error, engine_next. simpl.
  destruct (eng m a k (est w)) as [[msg|r] s']; simpl; [done|].
  specialize (Hrest {| est := s'; trace := trace w ++ [MkCall m a k] |}).
  unfold outcome in Hrest. simpl in Hrest.
  destruct Hrest as [Hcalls Hout]. split; [|exact Hout].
  rewrite Hcalls. by rewrite <- app_assoc.
Qed.

Lemma commands_ext {A} (m m' : M float estate A) cs x :
  (∀ w, m w = m' w) → commands eng m cs x → commands eng m' cs x.
Proof. intros Heq Hm w. unfold outcome. rewrite <- Heq. apply Hm. Qed.

Lemma commands_issued {A} (m : M float estate A) cs x w :
  commands eng m cs x → issued m w = (submitted eng cs (est w)).1.
Proof.
  intros Hm. unfold issued. rewrite (proj1 (Hm w)). by rewrite drop_app_length.
Qed.

Lemma bind_assoc {A B C} (m : M float estate A) (f : A → M float estate B)
    (g : B → M float estate C) w :
  ((m ≫= f) ≫= g) w = (m ≫= (λ a, f a ≫= g)) w.
Proof. rewrite !run_bind. by destruct (m w) as [[a|e] w']. Qed.

(** X1.  [set_joint_velocities] is a command sequence fixed by the kind
    of [joint_ids] and by whether [max_force] is [None]: its branches have
    neither [else] nor [return], so a single joint id runs on into the
    array commands, and a missing [max_force] is followed by the command
    that carries it.  Only a list of ids with a [max_force] gives one
    command. *)
Theorem set_joint_velocities_commands body_id joint_ids velocities max_force :
  let pos := [VInt body_id; ids_value joint_ids; VInt VELOCITY_CONTROL] in
  let single := MkCall setJointMotorControl2 pos in
  let array := MkCall setJointMotorControlArray pos in
  commands eng (set_joint_velocities eng body_id joint_ids velocities max_force)
    (match joint_ids, is_None max_force with
     | One _, true =>
         [single {[ "targetVelocity" := velocities ]};
          single (<["targetVelocity" := velocities]> {[ "force" := max_force ]});
          array {[ "targetVelocities" := velocities ]};
          array (<["targetVelocities" := velocities]> {[ "forces" := max_force ]})]
     | One _, false =>
         [single (<["targetVelocity" := velocities]> {[ "force" := max_force ]});
          array (<["targetVelocities" := velocities]> {[ "forces" := max_force ]})]
     | Many _, true =>
         [array {[ "targetVelocities" := velocities ]};
          array (<["targetVelocities" := velocities]> {[ "forces" := max_force ]})]
     | Many _, false =>
         [array (<["targetVelocities" := velocities]> {[ "forces" := max_force ]})]
     end) tt.
Proof.
  intros pos single array. unfold set_joint_velocities.
  destruct joint_ids as [i|l], (is_None max_force); subst pos single array.
  - eapply commands_ext.
    { intros w. symmetry. rewrite bind_assoc. reflexivity. }
    repeat apply commands_call_then. apply commands_ret.
  - eapply commands_ext.
    { intros w. symmetry. rewrite bind_assoc. reflexivity. }
    apply (commands_call_then setJointMotorControl2).
    repeat apply commands_call_then. apply commands_ret.
  - repeat apply commands_call_then. apply commands_ret.
  - repeat apply commands_call_then. apply commands_ret.
Qed.


(** X2.  [set_joint_torques] with a single joint id issues
    [setJointMotorControl2] and then [setJointMotorControlArray] with the
    same id and torque; with a list it issues the array command only.  All
    are in [TORQUE_CONTROL]. *)
Theorem set_joint_torques_commands body_id joint_ids torques :
  let pos := [VInt body_id; ids_value joint_ids; VInt TORQUE_CONTROL] in
  commands eng (set_joint_torques eng body_id joint_ids torques)
    (match joint_ids with
     | One _ => [MkCall setJointMotorControl2 pos {[ "force" := torques ]};
                 MkCall setJointMotorControlArray pos {[ "forces" := torques ]}]
     | Many _ => [MkCall setJointMotorControlArray pos {[ "forces" := torques ]}]
     end) tt.
Proof.
  intros pos. unfold set_joint_torques. destruct joint_ids as [i|l]; subst pos;
    repeat apply commands_call_then; apply commands_ret.
Qed.

(** *** Keywords beside the supplied parameters *)

Lemma dom_bind_all (fixed : list (string * val)) kw :
  dom (bind_all fixed kw) = list_to_set fixed.*1 ∪ dom kw.
Proof.
  induction fixed as [|[n v] fixed IH]; simpl; [set_solver|].
  rewrite dom_insert_L, IH. set_solver.
Qed.

Lemma lookup_bind_all_fresh (fixed : list (string * val)) kw name :
  name ∉ fixed.*1 → bind_all fixed kw !! name = kw !! name.
Proof.
  induction fixed as [|[n v] fixed IH]; simpl; [done|].
  rewrite not_elem_of_cons. intros [Hne Hn].
  rewrite lookup_insert_ne by done. by apply IH.
Qed.

Lemma lookup_bind_all (fixed : list (string * val)) kw name v :
  NoDup fixed.*1 → (name, v) ∈ fixed → bind_all fixed kw !! name = Some v.
Proof.
  induction fixed as [|[n x] fixed IH]; intros Hnd Hin.
  - by apply elem_of_nil in Hin.
  - rewrite fmap_cons, NoDup_cons in Hnd. destruct Hnd as [Hfresh Hnd].
    apply elem_of_cons in Hin as [Heq|Hin]; simpl in *.
    + injection Heq as -> ->. by rewrite lookup_insert_eq.
    + assert (n ≠ name).
      { intros ->. apply Hfresh. apply list_elem_of_fmap. by exists (name, v). }
      rewrite lookup_insert_ne by done. by apply IH.
Qed.

Lemma keywords_intro (fixed table : list (string * val)) :
  NoDup (fixed.*1 ++ table.*1) →
  keywords (bind_all fixed (foldl assign ∅ table)) fixed table.
Proof.
  intros Hnd. apply NoDup_app in Hnd as (Hfixed & Hdisj & Htable).
  split; [|split].
  - rewrite dom_bind_all, dom_assign_all, dom_empty_L. set_solver.
  - intros name v Hin. by apply lookup_bind_all.
  - intros name v Hin. rewrite lookup_bind_all_fresh.
    + by rewrite (lookup_assign_all _ _ _ _ Htable Hin).
    + intros Hname. apply (Hdisj name Hname).
      apply list_elem_of_fmap. by exists (name, v).
Qed.

Lemma forwards_beside_intro {A} (m : M float estate A) target pos fixed table :
  NoDup (fixed.*1 ++ table.*1) →
  (∀ w, issued m w
        = [MkCall target pos (bind_all fixed (foldl assign ∅ table))]) →
  forwards_beside m target pos fixed table.
Proof.
  intros Hnd Hm w. exists (bind_all fixed (foldl assign ∅ table)).
  split; [apply Hm|by apply keywords_intro].
Qed.


Ltac distinct_names :=
  once (solve [simpl; apply NoDup_ListNoDup; repeat constructor; simpl;
               intuition discriminate]).

(** X3.  [set_joint_motor_control] and [set_joint_motor_control_array]
    issue one call that always carries [controlMode] and, of the targets,
    gains and limits, exactly those that are not [None]. *)
Theorem motor_control_forwards_the_supplied_targets :
  (∀ body_id joint_id control_mode position velocity force kp kd max_velocity,
     forwards_beside
       (set_joint_motor_control eng body_id joint_id control_mode position
          velocity force kp kd max_velocity)
       setJointMotorControl2 [body_id; joint_id]
       [("controlMode", control_mode)]
       [("targetPosition", position); ("targetVelocity", velocity);
        ("force", force); ("positionGain", kp); ("velocityGain", kd);
        ("maxVelocity", max_velocity)])
  ∧ (∀ body_id joint_ids control_mode positions velocities forces kps kds,
       forwards_beside
         (set_joint_motor_control_array eng body_id joint_ids control_mode
            positions velocities forces kps kds)
         setJointMotorControlArray [body_id; joint_ids]
         [("controlMode", control_mode)]
         [("targetPositions", positions); ("targetVelocities", velocities);
          ("forces", forces); ("positionGains", kps); ("velocityGains", kds)]).
Proof.
  split; intros; apply forwards_beside_intro; try distinct_names;
    intros w; apply issued_call_ret.
Qed.

(** X4.  [set_joint_positions] issues one call in [POSITION_CONTROL]:
    [setJointMotorControl2] with the singular keyword names for a single
    joint id, [setJointMotorControlArray] with the plural names for a
    list; a maximal velocity is never part of it. *)
Theorem set_joint_positions_uses_position_control
    body_id joint_ids positions velocities kps kds forces :
  forwards_beside
    (set_joint_positions eng body_id joint_ids positions velocities kps kds
       forces)
    (match joint_ids with
     | One _ => setJointMotorControl2
     | Many _ => setJointMotorControlArray
     end)
    [VInt body_id; ids_value joint_ids]
    [("controlMode", VInt POSITION_CONTROL)]
    (match joint_ids with
     | One _ =>
         [("targetPosition", positions); ("targetVelocity", velocities);
          ("force", forces); ("positionGain", kps); ("velocityGain", kds)]
     | Many _ =>
         [("targetPositions", positions); ("targetVelocities", velocities);
          ("forces", forces); ("positionGains", kps); ("velocityGains", kds)]
     end).
Proof.
  destruct joint_ids as [i|l]; apply forwards_beside_intro; try distinct_names;
    intros w; apply issued_call_ret.
Qed.

(** X5.  The keywords that [create_visual_shape] and
    [create_collision_shape] hand to the engine, kind by kind: the
    dimensions of the kind, bound whatever their value, and the frame and
    colour parameters that are not [None].  The parameters [mesh_scale] and
    [flags] reach the engine for no kind; a visual mesh with a file name
    ignores [vertices], [indices], [uvs] and [normals]; a collision mesh
    always carries [fileName]. *)
Theorem shape_creation_keywords :
  (∀ radius half_extents length filename mesh_scale plane_normal flags
     rgba_color specular_color visual_frame_position vertices indices uvs
     normals visual_frame_orientation,
     let create kind :=
       create_visual_shape eng kind radius half_extents length filename
         mesh_scale plane_normal flags rgba_color specular_color
         visual_frame_position vertices indices uvs normals
         visual_frame_orientation in
     let frame :=
       [("rgbaColor", rgba_color); ("specularColor", specular_color);
        ("visualFramePosition", visual_frame_position);
        ("visualFrameOrientation", visual_frame_orientation)] in
     forwards_beside (create GEOM_SPHERE) createVisualShape [VInt GEOM_SPHERE]
       [("radius", radius)] frame
     ∧ forwards_beside (create GEOM_BOX) createVisualShape [VInt GEOM_BOX]
         [("halfExtents", half_extents)] frame
     ∧ forwards_beside (create GEOM_CAPSULE) createVisualShape
         [VInt GEOM_CAPSULE] [("radius", radius); ("length", length)] frame
     ∧ forwards_beside (create GEOM_CYLINDER) createVisualShape
         [VInt GEOM_CYLINDER] [("radius", radius); ("length", length)] frame
     ∧ forwards_beside (create GEOM_PLANE) createVisualShape [VInt GEOM_PLANE]
         [("planeNormal", plane_normal)] frame
     ∧ forwards_beside (create GEOM_MESH) createVisualShape [VInt GEOM_MESH]
         (if is_not_None filename then [("fileName", filename)] else [])
         (frame ++
          if is_not_None filename then []
          else [("vertices", vertices); ("indices", indices); ("uvs", uvs);
                ("normals", normals)]))
  ∧ (∀ radius half_extents height filename mesh_scale plane_normal flags
       collision_frame_position collision_frame_orientation,
       let create kind :=
         create_collision_shape eng kind radius half_extents height filename
           mesh_scale plane_normal flags collision_frame_position
           collision_frame_orientation in
       let frame :=
         [("collisionFramePosition", collision_frame_position);
          ("collisionFrameOrientation", collision_frame_orientation)] in
       forwards_beside (create GEOM_SPHERE) createCollisionShape
         [VInt GEOM_SPHERE] [("radius", radius)] frame
       ∧ forwards_beside (create GEOM_BOX) createCollisionShape
           [VInt GEOM_BOX] [("halfExtents", half_extents)] frame
       ∧ forwards_beside (create GEOM_CAPSULE) createCollisionShape
           [VInt GEOM_CAPSULE] [("radius", radius); ("height", height)] frame
       ∧ forwards_beside (create GEOM_CYLINDER) createCollisionShape
           [VInt GEOM_CYLINDER] [("radius", radius); ("height", height)] frame
       ∧ forwards_beside (create GEOM_PLANE) createCollisionShape
           [VInt GEOM_PLANE] [("planeNormal", plane_normal)] frame
       ∧ forwards_beside (create GEOM_MESH) createCollisionShape
           [VInt GEOM_MESH] [("fileName", filename)] frame).
Proof.
  split; intros; subst create frame; repeat split;
    try destruct (is_not_None filename) eqn:Hfile;
    (apply forwards_beside_intro;
     [distinct_names
     |intros w; unfold create_visual_shape, create_collision_shape; simpl;
      rewrite ?Hfile;
      first [apply (issued_call eng createVisualShape)
            |apply (issued_call eng createCollisionShape)]]).
Qed.


(** *** Accelerations through inverse dynamics *)

(** X6.  [set_joint_accelerations] with the state [q], [dq] given, as
    many accelerations as joints and as many positions, on an engine whose
    inverse dynamics answers with as many torques: it issues the inverse
    dynamics query on the lists and then one [setJointMotorControlArray]
    in [TORQUE_CONTROL] with the engine's torques as forces, also for a
    single joint id; its outcome is that of the command. *)
Theorem set_joint_accelerations_applies_inverse_dynamics
    body_id joint_ids accelerations q dq w torques s' :
  let joints := id_list joint_ids in
  let given :=
    match accelerations with NFloat x => NList [x] | _ => accelerations end in
  let query :=
    MkCall calculateInverseDynamics
      [VInt body_id; num_value (tolist_if_ndarray q);
       num_value (tolist_if_ndarray dq); num_value (tolist_if_ndarray given)]
      ∅ in
  let command :=
    MkCall setJointMotorControlArray
      [VInt body_id; VList (VInt <$> joints); VInt TORQUE_CONTROL]
      {[ "forces" := array_value (np_array torques) ]} in
  let m := set_joint_accelerations eng body_id joint_ids accelerations
             (Some q) (Some dq) in
  py_len given = Some (length joints) →
  py_len q = Some (length joints) →
  eng calculateInverseDynamics (args query) ∅ (est w) = (inr torques, s') →
  length torques = length joints →
  issued m w = [query; command]
  ∧ outcome m w = match engine_error eng command s' with
                  | Some msg => Raise (EngineError msg)
                  | None => Ok tt
                  end.
Proof.
  intros joints given query command m Hacc Hq Hanswer Htorques.
  assert (m w = (match (eng setJointMotorControlArray (args command)
                          (kwargs command) s').1 with
                 | inl msg => Raise (EngineError msg)
                 | inr _ => Ok tt
                 end,
                 {| est := (eng setJointMotorControlArray (args command)
                              (kwargs command) s').2;
                    trace := (trace w ++ [query]) ++ [command] |})) as Hrun.
  { subst m. unfold set_joint_accelerations.
    change (match joint_ids with One i => [i] | Many l => l end) with joints.
    fold given. rewrite run_bind. unfold len at 1. rewrite Hacc. simpl.
    rewrite bool_decide_eq_false_2 by (intros Hne; by apply Hne).
    rewrite run_bind. simpl. rewrite run_bind. unfold len at 1.
    rewrite Hq. simpl.
    rewrite bool_decide_eq_false_2 by (intros Hne; by apply Hne).
    rewrite run_bind. simpl. rewrite run_bind.
    unfold calculate_inverse_dynamics. rewrite run_bind, run_call.
    simpl in Hanswer. rewrite Hanswer. simpl.
    rewrite run_bind. unfold len at 1. simpl. rewrite Htorques.
    rewrite bool_decide_eq_false_2 by (intros Hne; by apply Hne).
    simpl. unfold set_joint_torques.
    rewrite run_bind, run_ret, run_bind, run_ret, run_bind, run_call. simpl.
    destruct (eng setJointMotorControlArray _ _ s') as [[msg|[]] s''];
      reflexivity. }
  unfold issued, outcome, engine_error. rewrite Hrun. simpl. split.
  - by rewrite <- app_assoc, drop_app_length.
  - by destruct (eng setJointMotorControlArray _ _ s') as [[msg|r] s''].
Qed.


(** X7.  [set_joint_accelerations] does not handle a subset of the
    joints: when the state has another size than the accelerations, or the
    engine answers with another number of torques than there are joints,
    the call [self.get_qindex(joint_ids)] raises [TypeError] and no motor
    command is issued. *)
Theorem set_joint_accelerations_needs_matching_sizes
    body_id joint_ids accelerations q dq w :
  let joints := id_list joint_ids in
  let given :=
    match accelerations with NFloat x => NList [x] | _ => accelerations end in
  let m := set_joint_accelerations eng body_id joint_ids accelerations
             (Some q) (Some dq) in
  py_len given = Some (length joints) →
  (∃ n, py_len q = Some n ∧ n ≠ length joints)
  ∨ (py_len q = Some (length joints)
     ∧ ∃ torques s',
         eng calculateInverseDynamics
           [VInt body_id; num_value (tolist_if_ndarray q);
            num_value (tolist_if_ndarray dq);
            num_value (tolist_if_ndarray given)] ∅ (est w)
         = (inr torques, s')
         ∧ length torques ≠ length joints) →
  (∃ msg, outcome m w = Raise (Local (TypeError msg)))
  ∧ ∀ c, c ∈ issued m w → meth c ≠ setJointMotorControlArray.
Proof.
  intros joints given m Hacc Hsizes.
  assert (∃ msg cs s, m w = (Raise (Local (TypeError msg)),
                             {| est := s; trace := trace w ++ cs |})
                      ∧ ∀ c, c ∈ cs → meth c = calculateInverseDynamics)
    as (msg & cs & s & Hrun & Hcs).
  { subst m. unfold set_joint_accelerations.
    change (match joint_ids with One i => [i] | Many l => l end) with joints.
    fold given. rewrite run_bind. unfold len at 1. rewrite Hacc. simpl.
    rewrite bool_decide_eq_false_2 by (intros Hne; by apply Hne).
    rewrite run_bind. simpl. rewrite run_bind. unfold len at 1.
    destruct Hsizes as [(n & Hq & Hn)|(Hq & torques & s' & Hanswer & Hn)];
      rewrite Hq; simpl.
    - rewrite bool_decide_eq_true_2 by (intros Heq; by apply Hn).
      rewrite run_bind. simpl. eexists _, [], (est w). rewrite app_nil_r.
      split; [by destruct w|]. intros c Hc. by apply elem_of_nil in Hc.
    - rewrite bool_decide_eq_false_2 by (intros Hne; by apply Hne).
      rewrite run_bind. simpl. rewrite run_bind.
      unfold calculate_inverse_dynamics. rewrite run_bind, run_call.
      rewrite Hanswer. simpl.
      rewrite run_bind. unfold len at 1. simpl.
      rewrite bool_decide_eq_true_2 by done.
      rewrite run_bind. simpl. eexists _, [_], _. split; [reflexivity|].
      intros c Hc. apply list_elem_of_singleton in Hc. by subst c. }
  unfold issued, outcome. rewrite Hrun. simpl. split; [by eexists|].
  rewrite drop_app_length. intros c Hc. by rewrite (Hcs c Hc).
Qed.


(** *** Actuated joints *)

#[local] Arguments mbind : simpl never.

Lemma actuated_loop body_id (l : list Z) (acc : list Z) w :
  for_each l acc
    (λ joint_ids joint_id,
       jnt ← get_joint_info eng body_id joint_id;
       if bool_decide (jointType jnt ≠ JOINT_FIXED)
       then ret (joint_ids ++ [jointIndex jnt])
       else ret joint_ids) w
  = (infos ← list_comprehension (get_joint_info eng body_id) l;
     ret (acc ++ (jointIndex <$>
                    filter (λ jnt, jointType jnt ≠ JOINT_FIXED) infos))) w.
Proof.
  revert acc w. induction l as [|joint_id l IH]; intros acc w; simpl.
  - rewrite run_bind, !run_ret. simpl. by rewrite app_nil_r.
  - rewrite !run_bind.
    destruct (get_joint_info eng body_id joint_id w) as [[jnt|e] w1]; [|done].
    rewrite !run_bind.
    assert ((if bool_decide (jointType jnt ≠ JOINT_FIXED)
             then ret (acc ++ [jointIndex jnt]) else ret acc) w1
            = (Ok (acc ++ (jointIndex <$>
                             filter (λ jnt, jointType jnt ≠ JOINT_FIXED) [jnt])),
               w1)) as ->.
    { rewrite filter_cons, filter_nil.
      case_bool_decide as Htype; destruct (decide _) as [Hkeep|Hdrop]; simpl;
        [reflexivity|by destruct Hdrop|by destruct Htype
        |by rewrite app_nil_r]. }
    rewrite IH, !run_bind.
    destruct (list_comprehension (get_joint_info eng body_id) l w1)
      as [[infos|e] w2]; [|done].
    rewrite !run_ret. rewrite (filter_app _ [jnt] infos). simpl.
    by rewrite fmap_app, app_assoc.
Qed.

(** X8.  [get_actuated_joint_ids] asks the number of joints [n], then
    the info of the joints [0 .. n-1] in order, and returns the
    [jointIndex] of those whose type is not [JOINT_FIXED], in that order:
    at most [n] identifiers. *)
Theorem get_actuated_joint_ids_filters_the_fixed_joints body_id w :
  get_actuated_joint_ids eng body_id w
  = (n ← num_joints eng body_id;
     infos ← list_comprehension (get_joint_info eng body_id) (seqZ 0 n);
     ret (jointIndex <$>
            filter (λ jnt, jointType jnt ≠ JOINT_FIXED) infos)) w
  ∧ ∀ joints,
      outcome (get_actuated_joint_ids eng body_id) w = Ok joints →
      ∃ n, outcome (num_joints eng body_id) w = Ok n
           ∧ (length joints ≤ Z.to_nat n)%nat.
Proof.
  assert (get_actuated_joint_ids eng body_id w
          = (n ← num_joints eng body_id;
             infos ← list_comprehension (get_joint_info eng body_id) (seqZ 0 n);
             ret (jointIndex <$>
                    filter (λ jnt, jointType jnt ≠ JOINT_FIXED) infos)) w)
    as Hrun.
  { unfold get_actuated_joint_ids. rewrite !run_bind.
    destruct (num_joints eng body_id w) as [[n|e] w1]; [|done].
    by rewrite actuated_loop. }
  split; [exact Hrun|]. intros joints. unfold outcome. rewrite Hrun, run_bind.
  destruct (num_joints eng body_id w) as [[n|e] w1]; [|done].
  rewrite run_bind.
  destruct (list_comprehension (get_joint_info eng body_id) (seqZ 0 n) w1)
    as [[infos|e] w2] eqn:Hinfos; [|done].
  rewrite run_ret. simpl. intros [= <-]. exists n. split; [done|].
  apply list_comprehension_length in Hinfos.
  rewrite length_seqZ in Hinfos.
  rewrite length_fmap, <- Hinfos. apply length_filter.
Qed.


(** *** Base velocity *)

(** X9.  [reset_base_velocity] issues one [resetBaseVelocity] call with
    exactly the velocities that are not [None], and does nothing at all
    when both are [None]; [reset_base_linear_velocity] and
    [reset_base_angular_velocity] always issue the call, with their
    velocity bound whatever its value. *)
Theorem base_velocity_resets_forward_what_is_given
    body_id linear_velocity angular_velocity :
  (if is_not_None linear_velocity || is_not_None angular_velocity
   then forwards_beside
          (reset_base_velocity eng body_id linear_velocity angular_velocity)
          resetBaseVelocity [VInt body_id] []
          [("angularVelocity", angular_velocity);
           ("linearVelocity", linear_velocity)]
   else ∀ w, reset_base_velocity eng body_id linear_velocity angular_velocity w
             = (Ok tt, w))
  ∧ forwards_beside (reset_base_linear_velocity eng body_id linear_velocity)
      resetBaseVelocity [VInt body_id]
      [("linearVelocity", linear_velocity)] []
  ∧ forwards_beside (reset_base_angular_velocity eng body_id angular_velocity)
      resetBaseVelocity [VInt body_id]
      [("angularVelocity", angular_velocity)] [].
Proof.
  split; [|split].
  - destruct linear_velocity, angular_velocity; simpl; try done.
    all: (apply forwards_beside_intro;
          [distinct_names
          |intros ?; unfold reset_base_velocity; simpl;
           apply (issued_call_ret eng resetBaseVelocity)]).
  - apply forwards_beside_intro; [distinct_names|].
    intros w. apply issued_call_ret.
  - apply forwards_beside_intro; [distinct_names|].
    intros w. apply issued_call_ret.
Qed.


(** *** Meshes *)

(** X10.  [load_mesh] creates the collision shape, then the visual
    shape, then the body, and stops at the first engine error.  Both shape
    calls carry [fileName], [meshScale] and [flags] when given; only the
    visual one carries [rgbaColor]; the body is created from the two
    identifiers that the engine answered, and the engine's body identifier
    is returned. *)
Theorem load_mesh_creates_two_shapes_then_the_body
    filename position orientation mass scale color flags w :
  let m := load_mesh eng filename position orientation mass scale color flags in
  ∃ kc kv,
    keywords kc [("fileName", filename); ("meshScale", scale)]
             [("flags", flags)]
    ∧ keywords kv [("fileName", filename); ("meshScale", scale)]
               [("flags", flags); ("rgbaColor", color)]
    ∧ let collision := MkCall createCollisionShape [VInt GEOM_MESH] kc in
      let visual := MkCall createVisualShape [VInt GEOM_MESH] kv in
      match eng createCollisionShape [VInt GEOM_MESH] kc (est w) with
      | (inl msg, _) =>
          issued m w = [collision] ∧ outcome m w = Raise (EngineError msg)
      | (inr collision_shape, s1) =>
          match eng createVisualShape [VInt GEOM_MESH] kv s1 with
          | (inl msg, _) =>
              issued m w = [collision; visual]
              ∧ outcome m w = Raise (EngineError msg)
          | (inr visual_shape, s2) =>
              let body :=
                MkCall createMultiBody []
                  (<["baseMass" := mass]>
                   (<["baseCollisionShapeIndex" := VInt collision_shape]>
                    (<["baseVisualShapeIndex" := VInt visual_shape]>
                     (<["basePosition" := position]>
                      {[ "baseOrientation" := orientation ]})))) in
              issued m w = [collision; visual; body]
              ∧ outcome m w
                = match (eng createMultiBody [] (kwargs body) s2).1 with
                  | inl msg => Raise (EngineError msg)
                  | inr mesh => Ok mesh
                  end
          end
      end.
Proof.
  intros m.
  exists (bind_all [("fileName", filename); ("meshScale", scale)]
                   (foldl assign ∅ [("flags", flags)])),
         (bind_all [("fileName", filename); ("meshScale", scale)]
                   (foldl assign ∅ [("flags", flags); ("rgbaColor", color)])).
  split; [apply keywords_intro; distinct_names|].
  split; [apply keywords_intro; distinct_names|].
  subst m. unfold issued, outcome, load_mesh. simpl.
  rewrite run_bind, run_call. unfold assign. simpl.
  destruct (eng createCollisionShape _ _ (est w)) as [[msg|collision_shape] s1];
    simpl; [by rewrite drop_app_length|].
  rewrite run_bind, run_call. simpl.
  destruct (eng createVisualShape _ _ s1) as [[msg|visual_shape] s2]; simpl;
    [by rewrite <- app_assoc, drop_app_length|].
  rewrite run_bind, run_call. simpl.
  destruct (eng createMultiBody _ _ s2) as [[msg|mesh] s3]; simpl;
    by rewrite <- !app_assoc, drop_app_length.
Qed.


(** *** Links *)

Ltac never_the_base_link :=
  repeat first
    [ apply all_calls_ret
    | apply all_calls_raise
    | apply all_calls_lift
    | apply all_calls_for_each; intros ? ?
    | apply all_calls_bind; [|intros ?]
    | case_bool_decide
    | match goal with
      | |- all_calls _ (let '(_, _) := ?x in _) => destruct x
      | |- all_calls _ (match ?x with Some _ => _ | None => _ end) => destruct x
      | |- all_calls _ (sim _ ?m ?a ?k) =>
          apply (all_calls_call eng _ m a k);
          unfold not_a_link_query_on_the_base; simpl;
          first [ discriminate | intros _ [= ?]; congruence ]
      end ].

Lemma link_angular_velocities_calls body_id link_ids :
  all_calls not_a_link_query_on_the_base
            (get_link_world_angular_velocities eng body_id link_ids).
Proof.
  unfold get_link_world_angular_velocities, get_base_linear_velocity,
    get_base_velocity, np_array_rows, link_velocity_entry.
  destruct link_ids; never_the_base_link.
Qed.

Lemma link_full_velocities_calls body_id link_ids :
  all_calls not_a_link_query_on_the_base
            (get_link_world_velocities eng body_id link_ids).
Proof.
  unfold get_link_world_velocities, get_base_velocity, np_array_rows,
    link_velocity_pair.
  destruct link_ids; never_the_base_link.
Qed.

(** X11.  For link -1, [get_link_world_angular_velocities] returns the
    linear velocity of the base (the first component of [getBaseVelocity],
    where [get_base_angular_velocity] returns the second), and
    [get_link_world_velocities] the linear followed by the angular
    velocity; neither accessor queries [getLinkState] on link -1. *)
Theorem base_velocity_through_the_link_accessors body_id :
  (∀ w,
     let answer := (eng getBaseVelocity [VInt body_id] ∅ (est w)).1 in
     outcome (get_link_world_angular_velocities eng body_id (One (-1))) w
     = match answer with
       | inl msg => Raise (EngineError msg)
       | inr vel => Ok (np_array (vec3_list vel.1))
       end
     ∧ outcome (get_base_angular_velocity eng body_id) w
       = match answer with
         | inl msg => Raise (EngineError msg)
         | inr vel => Ok (np_array (vec3_list vel.2))
         end
     ∧ outcome (get_link_world_velocities eng body_id (One (-1))) w
       = match answer with
         | inl msg => Raise (EngineError msg)
         | inr vel => Ok (np_array (vec3_list vel.1 ++ vec3_list vel.2))
         end)
  ∧ (∀ link_ids w,
       Forall not_a_link_query_on_the_base
              (issued (get_link_world_angular_velocities eng body_id link_ids) w)
       ∧ Forall not_a_link_query_on_the_base
                (issued (get_link_world_velocities eng body_id link_ids) w)).
Proof.
  split.
  - intros w answer. subst answer.
    unfold get_link_world_angular_velocities, get_link_world_velocities,
      get_base_angular_velocity, get_base_linear_velocity, get_base_velocity,
      outcome.
    simpl. rewrite !run_bind, !run_call.
    by destruct (eng getBaseVelocity [VInt body_id] ∅ (est w))
      as [[msg|[lin ang]] s'].
  - intros link_ids w. split; apply issued_all_calls.
    + apply link_angular_velocities_calls.
    + apply link_full_velocities_calls.
Qed.

Lemma link_state_entries_length (state : LinkState float) :
  (6 ≤ length (link_state_entries state) ≤ 8)%nat.
Proof.
  unfold link_state_entries. rewrite !length_app. simpl.
  destruct (worldLinkLinearVelocity state), (worldLinkAngularVelocity state);
    simpl; lia.
Qed.

Lemma get_link_state_run body_id link_id compute_velocity
    compute_forward_kinematics w :
  let query := link_query body_id compute_velocity compute_forward_kinematics
                 link_id in
  get_link_state eng body_id link_id compute_velocity
    compute_forward_kinematics w
  = (match (eng getLinkState (args query) (kwargs query) (est w)).1 with
     | inl msg => Raise (EngineError msg)
     | inr state => Ok (np_array <$> link_state_entries state)
     end,
     {| est := (eng getLinkState (args query) (kwargs query) (est w)).2;
        trace := trace w ++ [query] |}).
Proof.
  simpl. unfold get_link_state. rewrite run_bind, run_call.
  by destruct (eng getLinkState _ _ (est w)) as [[msg|state] s1].
Qed.

Lemma link_states_run body_id compute_velocity compute_forward_kinematics
    (link_ids : list Z) w :
  let m := get_link_states eng body_id link_ids compute_velocity
             compute_forward_kinematics in
  ∃ n, trace (m w).2
       = trace w ++ (link_query body_id compute_velocity
                       compute_forward_kinematics <$> take n link_ids)
       ∧ ∀ states, (m w).1 = Ok states →
           n = length link_ids ∧ length states = length link_ids
           ∧ Forall (λ state, 6 ≤ length state ≤ 8)%nat states.
Proof.
  simpl. unfold get_link_states. revert w.
  induction link_ids as [|link_id link_ids IH]; intros w; simpl.
  - exists 0%nat. rewrite app_nil_r. split; [done|].
    intros states [= <-]. by repeat split.
  - rewrite !run_bind, !get_link_state_run. simpl.
    destruct (eng getLinkState _ _ (est w)) as [[msg|state] s1]; simpl.
    + exists 1%nat. split; [done|]. intros states Hstates.
      discriminate Hstates.
    + rewrite !run_bind.
      match goal with
      | |- context [list_comprehension ?f link_ids ?w1] =>
          destruct (IH w1) as (n & Htrace & Hok);
          destruct (list_comprehension f link_ids w1) as [[states|e] w2]
      end; simpl in *.
      * exists (S n). rewrite Htrace, <- app_assoc. split; [done|].
        intros states' [= <-]. destruct (Hok states eq_refl) as (-> & Hlen & Hall).
        split; [done|]. split; [simpl; by rewrite Hlen|].
        constructor; [|done].
        change (6 ≤ length (np_array <$> link_state_entries state) ≤ 8)%nat.
        rewrite length_fmap. apply link_state_entries_length.
      * exists (S n). rewrite Htrace, <- app_assoc. split; [done|].
        intros states Hstates. discriminate Hstates.
Qed.

(** X12.  [get_link_states] queries [getLinkState] once per link
    identifier, in order and with the two flags it was given, link -1
    included, up to the first engine error; when it returns, every
    identifier was queried and there is one state per identifier, of six
    to eight arrays. *)
Theorem get_link_states_queries_every_link
    body_id link_ids compute_velocity compute_forward_kinematics w :
  let m := get_link_states eng body_id link_ids compute_velocity
             compute_forward_kinematics in
  let query := link_query body_id compute_velocity compute_forward_kinematics in
  (∃ n, issued m w = query <$> take n link_ids)
  ∧ ∀ states, outcome m w = Ok states →
      issued m w = query <$> link_ids
      ∧ length states = length link_ids
      ∧ Forall (λ state, 6 ≤ length state ≤ 8)%nat states.
Proof.
  intros m query.
  destruct (link_states_run body_id compute_velocity
              compute_forward_kinematics link_ids w) as (n & Htrace & Hok).
  fold m in Htrace, Hok. unfold issued, outcome. rewrite Htrace, drop_app_length.
  split; [by exists n|]. intros states Hstates.
  destruct (Hok states Hstates) as (-> & Hlen & Hall).
  by rewrite firstn_all.
Qed.


(** *** Client methods outside the table *)

Lemma collected_snoc (keep : val → bool) (vs : list val) (v : val) :
  collected keep (vs ++ [v])
  = if keep v then
      Some (VList (match collected keep vs with
                   | Some (VList l) => l ++ [v]
                   | _ => [v]
                   end))
    else collected keep vs.
Proof.
  unfold collected. rewrite filter_app, filter_cons, filter_nil.
  destruct (keep v); simpl.
  - destruct (filter _ vs) as [|x l]; simpl; done.
  - by rewrite app_nil_r.
Qed.

Lemma plugin_arguments (vs : list val) :
  let kw :=
    foldl (λ (kwargs : gmap string val) arg,
             if isinstance_str arg then <["textArgument" := arg]> kwargs
             else if isinstance_int arg then
               setdefault_append "intArgs" arg kwargs
             else if isinstance_float arg then
               setdefault_append "floatArgs" arg kwargs
             else kwargs)
          ∅ vs in
  kw !! "textArgument" = last (filter (λ v, isinstance_str v = true) vs)
  ∧ kw !! "intArgs" = collected isinstance_int vs
  ∧ kw !! "floatArgs" = collected isinstance_float vs
  ∧ dom kw ⊆ {[ "textArgument"; "intArgs"; "floatArgs" ]}.
Proof.
  induction vs as [|v vs IH] using rev_ind; simpl.
  - repeat split; set_solver.
  - rewrite foldl_app. simpl. destruct IH as (Htext & Hint & Hfloat & Hdom).
    rewrite filter_app, filter_cons, filter_nil, !collected_snoc.
    unfold setdefault_append.
    destruct v; simpl; rewrite ?app_nil_r, ?last_snoc;
      rewrite ?Hint, ?Hfloat;
      repeat match goal with
             | |- context [collected ?keep vs] =>
                 destruct (collected keep vs) as [[]|] eqn:?
             end;
      try (exfalso; unfold collected in *;
           repeat match goal with
                  | H : match ?l with [] => _ | _ => _ end = _ |- _ =>
                      destruct l; simplify_eq
                  end; fail);
      rewrite ?dom_insert; simplify_map_eq; repeat split; try done;
      set_solver.
Qed.

(** X13.  [execute_plugin_command] sorts its arguments by type: the
    last string is the [textArgument], the ints (booleans included) are
    the [intArgs] and the floats the [floatArgs], each in the order given;
    a keyword is absent when no argument has its type, and arguments of
    other types are dropped. *)
Theorem execute_plugin_command_sorts_its_arguments plugin_id (vs : list val) :
  ∃ kw,
    (∀ w, execute_plugin_command executePluginCommand plugin_id vs w
          = (executePluginCommand [plugin_id] kw ;; ret tt) w)
    ∧ kw !! "textArgument" = last (filter (λ v, isinstance_str v = true) vs)
    ∧ kw !! "intArgs" = collected isinstance_int vs
    ∧ kw !! "floatArgs" = collected isinstance_float vs
    ∧ dom kw ⊆ {[ "textArgument"; "intArgs"; "floatArgs" ]}.
Proof.
  eexists. split; [intros w; reflexivity|]. apply plugin_arguments.
Qed.


Lemma keywords_assigned (table : list (string * val)) :
  NoDup table.*1 → keywords (foldl assign ∅ table) [] table.
Proof. intros Hnd. by apply (keywords_intro []). Qed.

(** X14.  [get_contact_points] forwards a link index only together
    with its body: [linkIndexA] is dropped when [body_a] is [None], and
    likewise for B.  [get_closest_points] calls the same client method,
    [getContactPoints], with the bodies and the distance as positional
    arguments and the link indices that are not [None].  Both convert each
    answer with [contact_of]. *)
Theorem contact_queries_forward_the_links body_a body_b link_id_a link_id_b :
  (∃ kw,
     keywords kw []
       [("bodyA", body_a);
        ("linkIndexA", if is_not_None body_a then link_id_a else VNone);
        ("bodyB", body_b);
        ("linkIndexB", if is_not_None body_b then link_id_b else VNone)]
     ∧ ∀ w, get_contact_points getContactPoints body_a body_b link_id_a
              link_id_b w
            = (results ← getContactPoints [] kw;
               ret (contact_of <$> results)) w)
  ∧ (∀ distance, ∃ kw,
       keywords kw [] [("linkIndexA", link_id_a); ("linkIndexB", link_id_b)]
       ∧ ∀ w, get_closest_points getContactPoints body_a body_b distance
                link_id_a link_id_b w
              = (results ← getContactPoints [body_a; body_b; distance] kw;
                 ret (contact_of <$> results)) w).
Proof.
  split; [|intros distance]; eexists;
    (split; [apply keywords_assigned; distinct_names|]); intros w;
    unfold get_contact_points, get_closest_points; rewrite !run_bind.
  - replace (foldl assign ∅ _)
      with (let kwargs : gmap string val := ∅ in
            let kwargs :=
              if is_not_None body_a then
                let kwargs := <["bodyA" := body_a]> kwargs in
                set_if_not_None "linkIndexA" link_id_a kwargs
              else kwargs in
            if is_not_None body_b then
              let kwargs := <["bodyB" := body_b]> kwargs in
              set_if_not_None "linkIndexB" link_id_b kwargs
            else kwargs).
    + simpl. destruct (getContactPoints _ _ w) as [[[|r results]|e] w1]; done.
    + simpl. unfold assign, set_if_not_None. simpl.
      by destruct (is_not_None body_a), (is_not_None body_b).
  - simpl. destruct (getContactPoints _ _ w) as [[[|r results]|e] w1]; done.
Qed.

(** *** Camera images *)

Lemma matrix_kwarg_not_None (m : val) :
  is_not_None (matrix_kwarg m) = is_not_None m.
Proof. by destruct m. Qed.

Lemma vector_kwarg_not_None (v : val) :
  is_not_None (vector_kwarg v) = is_not_None v.
Proof. by destruct v. Qed.

Lemma set_if_converted name (conv : val → val) v (kw : gmap string val) :
  is_not_None (conv v) = is_not_None v →
  set_if_not_None name (conv v) kw
  = if is_not_None v then <[name := conv v]> kw else kw.
Proof. unfold set_if_not_None. by intros ->. Qed.

Lemma get_camera_image_run
    width height view_matrix projection_matrix light_direction light_color
    light_distance shadow light_ambient_coeff light_diffuse_coeff
    light_specular_coeff renderer flags :
  ∃ kw,
    keywords kw []
      [("viewMatrix", matrix_kwarg view_matrix);
       ("projectionMatrix", matrix_kwarg projection_matrix);
       ("lightDirection", vector_kwarg light_direction);
       ("lightColor", light_color);
       ("lightDistance", light_distance);
       ("shadow", option_int shadow);
       ("lightAmbientCoeff", light_ambient_coeff);
       ("lightDiffuseCoeff", light_diffuse_coeff);
       ("lightSpecularCoeff", light_specular_coeff);
       ("renderer", renderer);
       ("flags", flags)]
    ∧ reshapes_the_answer
        (get_camera_image getCameraImage width height view_matrix
           projection_matrix light_direction light_color light_distance
           shadow light_ambient_coeff light_diffuse_coeff
           light_specular_coeff renderer flags)
        (getCameraImage [width; height] kw).
Proof.
  eexists. split; [apply keywords_assigned; distinct_names|].
  intros w. unfold get_camera_image, camera_kwargs, reshaped. rewrite run_bind.
  replace (foldl assign ∅ _)
    with (set_if_not_None "flags" flags
         (set_if_not_None "renderer" renderer
         (set_if_not_None "lightSpecularCoeff" light_specular_coeff
         (set_if_not_None "lightDiffuseCoeff" light_diffuse_coeff
         (set_if_not_None "lightAmbientCoeff" light_ambient_coeff
         (set_int_if_not_None "shadow" shadow
         (set_if_not_None "lightDistance" light_distance
         (set_if_not_None "lightColor" light_color
         (if is_not_None light_direction
          then <["lightDirection" := vector_kwarg light_direction]>
                 (if is_not_None projection_matrix
                  then <["projectionMatrix" := matrix_kwarg projection_matrix]>
                         (if is_not_None view_matrix
                          then <["viewMatrix" := matrix_kwarg view_matrix]> ∅
                          else ∅)
                  else if is_not_None view_matrix
                       then <["viewMatrix" := matrix_kwarg view_matrix]> ∅
                       else ∅)
          else (if is_not_None projection_matrix
                then <["projectionMatrix" := matrix_kwarg projection_matrix]>
                       (if is_not_None view_matrix
                        then <["viewMatrix" := matrix_kwarg view_matrix]> ∅
                        else ∅)
                else if is_not_None view_matrix
                     then <["viewMatrix" := matrix_kwarg view_matrix]> ∅
                     else ∅)))))))))).
  2: { simpl. unfold assign. simpl. rewrite set_int_if_not_None_assign.
       rewrite !(set_if_converted _ matrix_kwarg)
         by apply matrix_kwarg_not_None.
       rewrite (set_if_converted _ vector_kwarg)
         by apply vector_kwarg_not_None.
       by destruct (is_not_None view_matrix), (is_not_None projection_matrix),
         (is_not_None light_direction). }
  cbv zeta.
  destruct (getCameraImage _ _ w)
    as [[[[[[columns rows] rgba] depth] segmentation]|e] w1]; [|done].
  unfold nd_reshape, lift. simpl.
  case_bool_decide as Hsizes.
  - destruct Hsizes as (Hrgba & Hdepth & Hsegmentation).
    rewrite !run_bind. simpl.
    rewrite !bool_decide_eq_true_2 by (rewrite ?Nat.mul_1_r; done).
    reflexivity.
  - rewrite !run_bind. simpl. rewrite !Nat.mul_1_r.
    repeat case_bool_decide; simpl; rewrite ?run_bind; simpl;
      try (by eexists); destruct Hsizes; done.
Qed.


(** X15.  [get_camera_image] forwards exactly the parameters that are
    not [None], arrays as flat lists (the matrices transposed first) and
    [shadow] through [int], and reshapes the three buffers with the width
    and height that the engine answered. *)
Theorem get_camera_image_forwards_and_reshapes
    width height view_matrix projection_matrix light_direction light_color
    light_distance shadow light_ambient_coeff light_diffuse_coeff
    light_specular_coeff renderer flags :
  ∃ kw,
    keywords kw []
      [("viewMatrix", matrix_kwarg view_matrix);
       ("projectionMatrix", matrix_kwarg projection_matrix);
       ("lightDirection", vector_kwarg light_direction);
       ("lightColor", light_color);
       ("lightDistance", light_distance);
       ("shadow", option_int shadow);
       ("lightAmbientCoeff", light_ambient_coeff);
       ("lightDiffuseCoeff", light_diffuse_coeff);
       ("lightSpecularCoeff", light_specular_coeff);
       ("renderer", renderer);
       ("flags", flags)]
    ∧ reshapes_the_answer
        (get_camera_image getCameraImage width height view_matrix
           projection_matrix light_direction light_color light_distance
           shadow light_ambient_coeff light_diffuse_coeff
           light_specular_coeff renderer flags)
        (getCameraImage [width; height] kw).
Proof. apply get_camera_image_run. Qed.

Lemma matrix_kwarg_of_convention (flat : list float) (mat : ndarray float) :
  matrix_convention flat mat →
  matrix_kwarg (array_value mat) = VList (VFloat <$> flat).
Proof.
  intros (_ & Htranspose & _). destruct mat as [sh d].
  unfold array_value, matrix_kwarg. simpl in *. by rewrite Htranspose.
Qed.

(** X16.  A view matrix from [compute_view_matrix] and a projection
    matrix from [compute_projection_matrix_fov], handed to
    [get_camera_image], reach the engine as the very lists of 16 numbers
    that the engine computed: the transposition on the way out is undone
    on the way in. *)
Theorem computed_matrices_reach_the_camera_unchanged
    eye_position target_position up_vector fov aspect near far
    w_view w_proj flat_view flat_proj s_view s_proj :
  eng computeViewMatrix []
      (<["eyePosition" := eye_position]>
       (<["targetPosition" := target_position]>
        {[ "upVector" := up_vector ]})) (est w_view)
  = (inr flat_view, s_view) →
  eng computeProjectionMatrixFOV [fov; aspect; near; far] ∅ (est w_proj)
  = (inr flat_proj, s_proj) →
  length flat_view = 16%nat →
  length flat_proj = 16%nat →
  ∃ view proj,
    outcome (compute_view_matrix eng eye_position target_position up_vector)
            w_view = Ok view
    ∧ outcome (compute_projection_matrix_fov eng fov aspect near far) w_proj
      = Ok proj
    ∧ ∀ width height light_direction light_color light_distance shadow
        light_ambient_coeff light_diffuse_coeff light_specular_coeff renderer
        flags,
      ∃ kw,
        kw !! "viewMatrix" = Some (VList (VFloat <$> flat_view))
        ∧ kw !! "projectionMatrix" = Some (VList (VFloat <$> flat_proj))
        ∧ reshapes_the_answer
            (get_camera_image getCameraImage width height (array_value view)
               (array_value proj) light_direction light_color light_distance
               shadow light_ambient_coeff light_diffuse_coeff
               light_specular_coeff renderer flags)
            (getCameraImage [width; height] kw).
Proof.
  intros Hview Hproj Hlen_view Hlen_proj.
  destruct (outcome_matrix_call eng computeViewMatrix _ _ w_view
              (λ x, x) flat_view s_view Hview Hlen_view)
    as (view & Hview_run & Hview_conv).
  destruct (outcome_matrix_call eng computeProjectionMatrixFOV _ _ w_proj
              (λ x, x) flat_proj s_proj Hproj Hlen_proj)
    as (proj & Hproj_run & Hproj_conv).
  exists view, proj. split; [exact Hview_run|]. split; [exact Hproj_run|].
  intros width height light_direction light_color light_distance shadow
    light_ambient_coeff light_diffuse_coeff light_specular_coeff renderer
    flags.
  destruct (get_camera_image_run width height (array_value view)
              (array_value proj) light_direction light_color light_distance
              shadow light_ambient_coeff light_diffuse_coeff
              light_specular_coeff renderer flags)
    as (kw & (_ & _ & Htable) & Hrun).
  exists kw. split; [|split; [|exact Hrun]].
  - rewrite (Htable "viewMatrix" (matrix_kwarg (array_value view)))
      by set_solver.
    by rewrite (matrix_kwarg_of_convention flat_view view).
  - rewrite (Htable "projectionMatrix" (matrix_kwarg (array_value proj)))
      by set_solver.
    by rewrite (matrix_kwarg_of_convention flat_proj proj).
Qed.


(** X17.  Whenever [get_camera_image] returns a picture of the width
    and height that were asked, [get_rgba_image], [get_depth_image] and
    [get_segmentation_image] with the same arguments return its three
    buffers, from the same world to the same world. *)
Theorem single_buffer_images_agree_with_the_camera_image
    (width height : nat) view_matrix projection_matrix light_direction
    light_color light_distance shadow light_ambient_coeff light_diffuse_coeff
    light_specular_coeff renderer flags w rgba depth segmentation w' :
  get_camera_image getCameraImage (VInt (Z.of_nat width))
    (VInt (Z.of_nat height)) view_matrix projection_matrix light_direction
    light_color light_distance shadow light_ambient_coeff light_diffuse_coeff
    light_specular_coeff renderer flags w
  = (Ok (width, height, rgba, depth, segmentation), w') →
  get_rgba_image getCameraImage width height view_matrix projection_matrix
    light_direction light_color light_distance shadow light_ambient_coeff
    light_diffuse_coeff light_specular_coeff renderer flags w
  = (Ok rgba, w')
  ∧ get_depth_image getCameraImage width height view_matrix projection_matrix
      light_direction light_color light_distance shadow light_ambient_coeff
      light_diffuse_coeff light_specular_coeff renderer flags w
    = (Ok depth, w')
  ∧ get_segmentation_image getCameraImage width height view_matrix
      projection_matrix light_direction light_color light_distance shadow
      light_ambient_coeff light_diffuse_coeff light_specular_coeff renderer
      flags w
    = (Ok segmentation, w').
Proof.
  unfold get_camera_image, get_rgba_image, get_depth_image,
    get_segmentation_image. cbv zeta. rewrite !run_bind.
  destruct (getCameraImage _ _ w)
    as [[[[[[columns rows] pixels] distances] mask]|e] w1]; [|done].
  rewrite !run_bind. unfold reshaped, lift.
  destruct (nd_reshape (np_array pixels) [columns; rows; 4%nat])
    as [a|] eqn:Hrgba; [|done].
  rewrite run_ret, run_bind.
  destruct (nd_reshape (np_array distances) [columns; rows])
    as [d|] eqn:Hdepth; [|done].
  rewrite run_ret, run_bind.
  destruct (nd_reshape (np_array mask) [columns; rows])
    as [sg|] eqn:Hmask; [|done].
  rewrite !run_ret. intros [= -> -> -> -> -> ->].
  by rewrite Hrgba, Hdepth, Hmask.
Qed.

(** *** Inverse kinematics *)

(** X18.  [calculate_inverse_kinematics] forwards the null-space
    parameters [lowerLimits], [upperLimits], [jointRanges], [restPoses]
    all together or not at all: if one of the four is [None] none of them
    reaches the engine.  The other optional parameters are forwarded when
    not [None], arrays as flat lists. *)
Theorem inverse_kinematics_null_space_is_all_or_nothing
    body_id link_id position orientation lower_limits upper_limits
    joint_ranges rest_poses joint_dampings solver q_curr max_iters threshold :
  let null_space :=
    is_not_None lower_limits && is_not_None upper_limits
    && is_not_None joint_ranges && is_not_None rest_poses in
  let stored (v : val) := if null_space then v else VNone in
  ∃ kw,
    keywords kw []
      [("targetOrientation", vector_kwarg orientation);
       ("lowerLimits", stored lower_limits);
       ("upperLimits", stored upper_limits);
       ("jointRanges", stored joint_ranges);
       ("restPoses", stored rest_poses);
       ("currentPosition", vector_kwarg q_curr);
       ("jointDamping", vector_kwarg joint_dampings);
       ("solver", solver);
       ("maxNumIterations", max_iters);
       ("residualThreshold", threshold)]
    ∧ ∀ w,
        calculate_inverse_kinematics calculateInverseKinematics body_id
          link_id position orientation lower_limits upper_limits joint_ranges
          rest_poses joint_dampings solver q_curr max_iters threshold w
        = (q ← calculateInverseKinematics [body_id; link_id; position] kw;
           ret (np_array q)) w.
Proof.
  intros null_space stored. eexists.
  split; [apply keywords_assigned; distinct_names|].
  intros w. unfold calculate_inverse_kinematics. cbv zeta.
  fold null_space.
  match goal with
  | |- (calculateInverseKinematics _ ?k ≫= _) w
       = (calculateInverseKinematics _ ?k' ≫= _) w =>
      replace k' with k; [reflexivity|]
  end.
  simpl. unfold assign. simpl.
  rewrite !(set_if_converted _ vector_kwarg) by apply vector_kwarg_not_None.
  subst stored null_space. simpl. unfold set_if_not_None.
  destruct (is_not_None lower_limits) eqn:Hlower,
    (is_not_None upper_limits) eqn:Hupper,
    (is_not_None joint_ranges) eqn:Hranges,
    (is_not_None rest_poses) eqn:Hrest; simpl;
    rewrite ?Hlower, ?Hupper, ?Hranges, ?Hrest; done.
Qed.

(** *** Joint limits and axes *)

Lemma list_comprehension_fmap {A B C} (f : A → M float estate B) (g : B → C)
    (l : list A) w :
  list_comprehension (λ x, y ← f x; ret (g y)) l w
  = (ys ← list_comprehension f l; ret (g <$> ys)) w.
Proof.
  revert w. induction l as [|x l IH]; intros w; simpl; [done|].
  rewrite !run_bind. destruct (f x w) as [[y|e] w1]; [|done].
  rewrite run_ret, !run_bind, IH, !run_bind.
  by destruct (list_comprehension f l w1) as [[ys|e] w2].
Qed.

Lemma np_stack_uniform (k : nat) (rows : list (list float)) :
  Forall (λ row, length row = k) rows →
  np_stack (np_array <$> rows)
  = Some {| shape := match rows with
                     | [] => [0%nat]
                     | _ => [length rows; k]
                     end;
            data := concat rows |}.
Proof.
  intros Hrows. destruct rows as [|row rows]; [done|].
  assert (∀ r, r ∈ row :: rows → length r = k) as Hlen
    by (by apply Forall_forall).
  unfold np_stack.
  change (np_array <$> row :: rows) with (np_array row :: (np_array <$> rows)).
  cbv beta iota.
  assert (forallb (λ x, bool_decide (shape x = shape (np_array row)))
                  (np_array row :: (np_array <$> rows)) = true) as ->.
  { apply forallb_forall. intros x Hx. apply bool_decide_eq_true.
    change (In x (np_array <$> row :: rows)) in Hx.
    apply list_elem_of_In, list_elem_of_fmap in Hx as (r & -> & Hr).
    simpl. by rewrite (Hlen r Hr), (Hlen row) by left. }
  f_equal. f_equal.
  - simpl. rewrite length_fmap. by rewrite (Hlen row) by left.
  - change (np_array row :: (np_array <$> rows))
      with (np_array <$> row :: rows).
    rewrite <- list_fmap_compose. by rewrite list_fmap_id.
Qed.

Lemma stacked_rows (row : JointInfo float → list float) (k : nat) body_id
    (l : list Z) w :
  (∀ info, length (row info) = k) →
  (rows ← list_comprehension
            (λ joint_id,
               info ← call getJointInfo [VInt body_id; VInt joint_id] ∅;
               ret (row info)) l;
   np_array_rows (np_array <$> rows)) w
  = (infos ← list_comprehension (get_joint_info eng body_id) l;
     ret {| shape := match l with
                     | [] => [0%nat]
                     | _ => [length l; k]
                     end;
            data := concat (row <$> infos) |}) w.
Proof.
  intros Hrow. rewrite run_bind.
  rewrite (list_comprehension_fmap (get_joint_info eng body_id) row).
  rewrite !run_bind.
  destruct (list_comprehension (get_joint_info eng body_id) l w)
    as [[infos|e] w1] eqn:Hinfos; [|done].
  rewrite !run_ret. unfold np_array_rows.
  rewrite (np_stack_uniform k).
  - apply list_comprehension_length in Hinfos. simpl. rewrite length_fmap.
    destruct infos, l; simpl in *; try done. by rewrite Hinfos.
  - apply Forall_fmap, Forall_forall. intros info _. apply Hrow.
Qed.

(** X19.  On a list of joints, [get_joint_limits] and
    [get_joint_axes] query the joints in order and return an array of
    shape (N, 2), respectively (N, 3), whose rows are the lower and upper
    limit, respectively the axis, of each joint; for the empty list the
    array has shape (0,).  [np.array] never fails here. *)
Theorem joint_limits_and_axes_are_stacked_rows body_id (l : list Z) w :
  get_joint_limits eng body_id (Many l) w
  = (infos ← list_comprehension (get_joint_info eng body_id) l;
     ret {| shape := match l with
                     | [] => [0%nat]
                     | _ => [length l; 2%nat]
                     end;
            data := concat ((λ info, [jointLowerLimit info;
                                      jointUpperLimit info]) <$> infos) |}) w
  ∧ get_joint_axes eng body_id (Many l) w
    = (infos ← list_comprehension (get_joint_info eng body_id) l;
       ret {| shape := match l with
                       | [] => [0%nat]
                       | _ => [length l; 3%nat]
                       end;
              data := concat ((λ info, vec3_list (jointAxis info))
                                <$> infos) |}) w.
Proof.
  split.
  - apply (stacked_rows joint_limits_slice 2). done.
  - apply (stacked_rows (λ info, vec3_list (jointAxis info)) 3).
    intros info. by destruct (jointAxis info) as [[x y] z].
Qed.

End FurtherProperties.

(** ** The further properties on the reference engine *)

(** Two accelerations for two joints, with the state given: the torques of
    the reference engine are applied with one array command. *)
Lemma set_joint_accelerations_applies_inverse_dynamics_witness :
  let m := set_joint_accelerations toy_engine 0 (Many [0; 1])
             (NList [1; 1]%Q) (Some (NList [0; 0]%Q))
             (Some (NList [0; 0]%Q)) in
  py_len (NList [1; 1]%Q) = Some 2%nat
  ∧ py_len (NList [0; 0]%Q) = Some 2%nat
  ∧ meth <$> issued m toy_world
    = [calculateInverseDynamics; setJointMotorControlArray]
  ∧ outcome m toy_world = Ok tt.
Proof.
  intros m. split; [reflexivity|]. split; [reflexivity|].
  destruct (set_joint_accelerations_applies_inverse_dynamics toy_engine 0
              (Many [0; 1]) (NList [1; 1]%Q) (NList [0; 0]%Q)
              (NList [0; 0]%Q) toy_world [0; 0]%Q (est toy_world)
              eq_refl eq_refl eq_refl eq_refl) as [Hcalls Hout].
  split; [|exact Hout]. fold m in Hcalls. rewrite Hcalls. reflexivity.
Defined.

(** Three accelerations for three joints, where the reference engine
    answers with two torques. *)
Lemma set_joint_accelerations_needs_matching_sizes_witness :
  py_len (NList [1; 1; 1]%Q) = Some 3%nat
  ∧ length [0; 0]%Q ≠ 3%nat
  ∧ ∃ msg,
      outcome (set_joint_accelerations toy_engine 0 (Many [0; 1; 2])
                 (NList [1; 1; 1]%Q) (Some (NList [0; 0; 0]%Q))
                 (Some (NList [0; 0; 0]%Q))) toy_world
      = Raise (Local (TypeError msg)).
Proof.
  split; [reflexivity|]. split; [discriminate|].
  apply (set_joint_accelerations_needs_matching_sizes toy_engine 0
           (Many [0; 1; 2]) (NList [1; 1; 1]%Q) (NList [0; 0; 0]%Q)
           (NList [0; 0; 0]%Q) toy_world eq_refl).
  right. split; [reflexivity|]. exists [0; 0]%Q, (est toy_world).
  split; [reflexivity|discriminate].
Defined.

(** The two joints of the reference engine are not fixed. *)
Lemma get_actuated_joint_ids_filters_the_fixed_joints_witness :
  outcome (get_actuated_joint_ids toy_engine 0) toy_world = Ok [0; 1]
  ∧ ∃ n, outcome (num_joints toy_engine 0) toy_world = Ok n
         ∧ (length [0; 1] ≤ Z.to_nat n)%nat.
Proof.
  split; [reflexivity|].
  apply (proj2 (get_actuated_joint_ids_filters_the_fixed_joints toy_engine 0
                  toy_world) [0; 1]).
  reflexivity.
Defined.

(** The states of link 0 and of link -1, with velocities. *)
Lemma get_link_states_queries_every_link_witness :
  let m := get_link_states toy_engine 0 [0; -1] (VBool true) (VBool false) in
  (∃ states, outcome m toy_world = Ok states)
  ∧ issued m toy_world = link_query 0 (VBool true) (VBool false) <$> [0; -1].
Proof.
  intros m. split; [eexists; reflexivity|].
  destruct (get_link_states_queries_every_link toy_engine 0 [0; -1]
              (VBool true) (VBool false) toy_world) as [_ Hok].
  destruct (Hok _ eq_refl) as [Hcalls _]. exact Hcalls.
Defined.

(** The matrices of the reference engine reach its camera as the lists
    0, 1, ..., 15. *)
Lemma computed_matrices_reach_the_camera_unchanged_witness :
  length toy_flat_matrix = 16%nat
  ∧ ∃ view proj kw,
      outcome (compute_view_matrix toy_engine VNone VNone VNone) toy_world
      = Ok view
      ∧ outcome (compute_projection_matrix_fov toy_engine VNone VNone VNone
                   VNone) toy_world = Ok proj
      ∧ kw !! "viewMatrix" = Some (VList (VFloat <$> toy_flat_matrix))
      ∧ kw !! "projectionMatrix" = Some (VList (VFloat <$> toy_flat_matrix))
      ∧ reshapes_the_answer
          (get_camera_image toy_getCameraImage (VInt 1) (VInt 1)
             (array_value view) (array_value proj) VNone VNone VNone None
             VNone VNone VNone VNone VNone)
          (toy_getCameraImage [VInt 1; VInt 1] kw).
Proof.
  split; [reflexivity|].
  destruct (computed_matrices_reach_the_camera_unchanged toy_engine
              toy_getCameraImage VNone VNone VNone VNone VNone VNone VNone
              toy_world toy_world toy_flat_matrix toy_flat_matrix
              (est toy_world) (est toy_world) eq_refl eq_refl eq_refl eq_refl)
    as (view & proj & Hview & Hproj & Hcamera).
  destruct (Hcamera (VInt 1) (VInt 1) VNone VNone VNone None VNone VNone
              VNone VNone VNone) as (kw & Hkw_view & Hkw_proj & Hrun).
  by exists view, proj, kw.
Defined.

(** The picture of one pixel of the reference engine. *)
Lemma single_buffer_images_agree_with_the_camera_image_witness :
  get_camera_image toy_getCameraImage (VInt 1) (VInt 1) VNone VNone VNone
    VNone VNone None VNone VNone VNone VNone VNone toy_world
  = (Ok (1%nat, 1%nat,
         {| shape := [1; 1; 4]%nat; data := [0; 0; 0; 255] |},
         {| shape := [1; 1]%nat; data := [1%Q] |},
         {| shape := [1; 1]%nat; data := [0] |}), toy_world)
  ∧ get_rgba_image toy_getCameraImage 1 1 VNone VNone VNone VNone VNone None
      VNone VNone VNone VNone VNone toy_world
    = (Ok {| shape := [1; 1; 4]%nat; data := [0; 0; 0; 255] |}, toy_world).
Proof.
  split; [reflexivity|].
  apply (single_buffer_images_agree_with_the_camera_image toy_getCameraImage
           1 1 VNone VNone VNone VNone VNone None VNone VNone VNone VNone
           VNone toy_world _ _ _ toy_world eq_refl).
Defined.

(** ** The field of view *)

(** C4.  [compute_projection_matrix_fov] takes no part in the conversion
    of angles: whatever the engine and the arguments, its field of view
    is the first positional argument of [computeProjectionMatrixFOV] as
    the caller gave it.  On the reference engine a field of view of 1
    (radian) is forwarded as 1, which is not [rad2deg 1], whereas
    [compute_view_matrix_from_ypr] forwards a yaw of 1 as [rad2deg 1]. *)
Theorem field_of_view_is_forwarded_unconverted :
  (∀ (float estate : Type) (eng : Engine float estate) fov aspect near far w,
     issued (compute_projection_matrix_fov eng fov aspect near far) w
     = [MkCall computeProjectionMatrixFOV [fov; aspect; near; far] ∅])
  ∧ issued (compute_projection_matrix_fov toy_engine (VFloat 1%Q)
              (VFloat 1%Q) (VFloat 1%Q) (VFloat 2%Q)) toy_world
    = [MkCall computeProjectionMatrixFOV
              [VFloat 1%Q; VFloat 1%Q; VFloat 1%Q; VFloat 2%Q] ∅]
  ∧ ¬ (toy_rad2deg 1 == 1)%Q
  ∧ ∃ kw,
      issued (compute_view_matrix_from_ypr toy_rad2deg toy_engine VNone VNone
                1%Q 1%Q 1%Q VNone) toy_world
      = [MkCall computeViewMatrixFromYawPitchRoll [] kw]
      ∧ kw !! "yaw" = Some (VFloat (toy_rad2deg 1)).
Proof.
  split; [|split; [|split]].
  - intros float estate eng fov aspect near far w.
    unfold compute_projection_matrix_fov, issued.
    rewrite run_bind, run_call.
    destruct (eng computeProjectionMatrixFOV _ _ _).1 as [msg|flat];
      simpl; [by rewrite drop_app_length|].
    rewrite run_bind. unfold reshape_4_4.
    destruct (nd_reshape _ _); simpl; by rewrite drop_app_length.
  - reflexivity.
  - intros Heq. discriminate Heq.
  - eexists. split; [reflexivity|]. by simplify_map_eq.
Qed.
